(** * The in-memory fallback store of the books scraper API

    A shallow embedding of [database.py]: the fallback document store
    ([MemoryCollection]), its cursors ([MemoryCursor],
    [MemoryAggregationCursor]) and the connection lifecycle
    ([connect_to_mongo], [_load_memory_data]).

    Python objects live in a heap of dictionaries addressed by locations, so
    that two references to one dictionary are two occurrences of one
    location.  Exceptions are the [Raise] results of a small error monad. *)

From stdpp Require Import gmap strings list fin_maps numbers pretty sorting.
From Stdlib Require Import QArith Qcanon.

Open Scope string_scope.
Open Scope Z_scope.

(** ** Exceptions and results *)

Inductive exn :=
  | TypeError
  | KeyError
  | ReError
  | ZeroDivisionError
  | FileNotFoundError
  | JSONDecodeError
  | PermissionError
  | ConnectionFailure.

Inductive result (A : Type) :=
  | Ok (a : A)
  | Raise (e : exn).
Arguments Ok {A} a.
Arguments Raise {A} e.

#[global] Instance result_ret : MRet result := λ A a, Ok a.
#[global] Instance result_bind : MBind result := λ A B f m,
  match m with Ok a => f a | Raise e => Raise e end.

(** ** Values held by document fields

    The spec's documents hold strings, integers, floats and [None].  A finite
    float is represented by the rational it denotes, which is exact for the
    comparisons the store performs. *)

Inductive value :=
  | VNone
  | VInt (z : Z)
  | VFloat (q : Qc)
  | VStr (s : string).

#[global] Instance value_inhabited : Inhabited value := populate VNone.

(** The numeric value of an [int] or a [float]. *)
Definition as_number (v : value) : option Qc :=
  match v with
  | VInt z => Some (Qc_of_Z z)
  | VFloat q => Some q
  | _ => None
  end.

(** Python's [==] on these values: numbers compare by value across [int]
    and [float], strings by content, and unrelated types are unequal. *)
Definition py_eq (a b : value) : bool :=
  match a, b with
  | VNone, VNone => true
  | VStr s, VStr t => bool_decide (s = t)
  | _, _ =>
      match as_number a, as_number b with
      | Some x, Some y => bool_decide (x = y)
      | _, _ => false
      end
  end.

(** Python's [<]: defined between two numbers and between two strings
    (code point order, which is the byte order of the UTF-8 encoding), a
    [TypeError] otherwise. *)
Definition py_lt (a b : value) : result bool :=
  match a, b with
  | VStr s, VStr t => Ok (String.ltb s t)
  | _, _ =>
      match as_number a, as_number b with
      | Some x, Some y => Ok (bool_decide (x < y)%Qc)
      | _, _ => Raise TypeError
      end
  end.

(** [a > b] is answered by the reflected [b < a]. *)
Definition py_gt (a b : value) : result bool := py_lt b a.

(** ** Documents, heap and store state *)

Abbreviation doc := (gmap string value).
Abbreviation loc := positive.

(** [_memory_storage] is the module-level list of stored dictionaries,
    [_use_memory_storage] the backend flag. *)
Record state := State {
  heap : gmap loc doc;
  _memory_storage : list loc;
  _use_memory_storage : bool
}.

(** The dictionary a reference points to. *)
Definition deref (h : gmap loc doc) (l : loc) : doc := h !!! l.
Arguments deref : simpl never.

(** [d[k] = v] through a reference. *)
Definition setitem (l : loc) (k : string) (v : value) (st : state) : state :=
  State (<[l := <[k := v]> (deref (heap st) l)]> (heap st))
        (_memory_storage st) (_use_memory_storage st).

(** A new object holding [d]. *)
Definition alloc (d : doc) (h : gmap loc doc) : loc * gmap loc doc :=
  let l := fresh (dom h) in (l, <[l := d]> h).

(** The stored documents by value, in storage order. *)
Definition contents (st : state) : list doc :=
  deref (heap st) <$> _memory_storage st.

(** ** The services of the Python runtime the store calls

    [str] on a value, [re.search] (pattern, subject, [IGNORECASE] flag; the
    result is the truth of the match object), [sum] and true division are
    library code outside the repository. *)
Class PyRuntime := {
  py_str : value → string;
  re_search : value → string → bool → result bool;
  py_sum : list value → result value;
  py_truediv : value → Z → result value
}.

(** ** Filters

    A filter is a dictionary from field names to either a literal or an
    operator object.  The matcher iterates over [query.items()], so a filter
    is kept as the list of its items in iteration order; an operator object is
    only probed by key. *)

Inductive qvalue :=
  | QLit (v : value)
  | QOps (ops : gmap string value).

Abbreviation query := (list (string * qvalue)).

(** [x.get(field, default)] *)
Definition dict_get (d : doc) (field : string) (dflt : value) : value :=
  default dflt (d !! field).

(** Python's [l[start:stop]] with step 1: a negative index counts from the
    end, and both indices are clamped to the list. *)
Definition slice_index (len i : Z) : Z :=
  if i <? 0 then Z.max 0 (len + i) else Z.min i len.

Definition py_slice {A} (l : list A) (start : Z) (stop : option Z) : list A :=
  let len := Z.of_nat (length l) in
  let s := slice_index len start in
  let e := match stop with None => len | Some e => slice_index len e end in
  take (Z.to_nat (e - s)) (drop (Z.to_nat s) l).

(** [list.sort(key=..., reverse=...)].  The sort is stable and asks only
    [<] of the keys; it is modelled by the stable insertion sort that asks the
    same question.  With [reverse] the list is reversed before and after the
    ascending sort, which is how equal keys keep their original order. *)
Section list_sort.
Context {A : Type} (key : A → value).

Fixpoint insert_sorted (x : A) (l : list A) : result (list A) :=
  match l with
  | [] => Ok [x]
  | y :: l' =>
      b ← py_lt (key y) (key x);
      if b : bool then r ← insert_sorted x l'; Ok (y :: r)
      else Ok (x :: y :: l')
  end.

Fixpoint sort_ascending (l : list A) : result (list A) :=
  match l with
  | [] => Ok []
  | x :: l' => s ← sort_ascending l'; insert_sorted x s
  end.

Definition list_sort (reverse : bool) (l : list A) : result (list A) :=
  if reverse then r ← sort_ascending (list.reverse l); Ok (list.reverse r)
  else sort_ascending l.
End list_sort.

(** ** MemoryCursor

    A cursor is configured by a chain of calls that each return the cursor
    itself, so the chain is a composition of record updates. *)
Module MemoryCursor.

Record cursor := MkCursor {
  data : list loc;
  _skip : Z;
  _limit : option Z;
  _sort_field : option string;
  _sort_direction : Z
}.

(** [__init__] *)
Definition init (d : list loc) : cursor := MkCursor d 0 None None 1.

Definition skip (count : Z) (c : cursor) : cursor :=
  MkCursor (data c) count (_limit c) (_sort_field c) (_sort_direction c).

Definition limit (count : Z) (c : cursor) : cursor :=
  MkCursor (data c) (_skip c) (Some count) (_sort_field c) (_sort_direction c).

Definition sort (field : string) (direction : Z) (c : cursor) : cursor :=
  MkCursor (data c) (_skip c) (_limit c) (Some field) direction.

(** The key function of the sort: [lambda x: x.get(self._sort_field, 0)]. *)
Definition sort_key (h : gmap loc doc) (field : string) (x : loc) : value :=
  dict_get (deref h x) field (VInt 0).

(** The first half of [to_list]: the copy of [self.data], sorted when
    [self._sort_field] is truthy. *)
Definition sorted_data (h : gmap loc doc) (c : cursor) : result (list loc) :=
  match _sort_field c with
  | Some field =>
      if bool_decide (field = "") then Ok (data c)
      else
        let reverse := bool_decide (_sort_direction c = -1) in
        list_sort (sort_key h field) reverse (data c)
  | None => Ok (data c)
  end.

(** [to_list]; the [length] argument is accepted and never read.  The
    result is a new list of the references held in [self.data]. *)
Definition to_list (h : gmap loc doc) (c : cursor) (length : option Z)
    : result (list loc) :=
  result ← sorted_data h c;
  let start := _skip c in
  let stop :=
    match _limit c with
    | Some n => if bool_decide (n = 0) then None else Some (start + n)
    | None => None
    end in
  Ok (py_slice result start stop).

End MemoryCursor.

(** ** MemoryAggregationCursor *)

(** The [$group] entry of a stage: the value under [_id], when the key is
    there, and the names of the other keys (the accumulators, whose
    expressions are never read). *)
Record group_spec := MkGroup {
  group_id : option value;
  group_accumulators : gset string
}.

(** A pipeline stage is a dictionary; only its [$group] entry is ever
    looked at.  [stage_sort] is the [$sort] entry (field and direction). *)
Record stage := MkStage {
  stage_group : option group_spec;
  stage_sort : option (string * Z)
}.

Module MemoryAggregationCursor.
Section with_runtime.
Context {rt : PyRuntime}.

(** [sum(xs) / len(xs) if xs else 0] *)
Definition average (xs : list value) : result value :=
  match xs with
  | [] => Ok (VInt 0)
  | _ => s ← py_sum xs; py_truediv s (Z.of_nat (length xs))
  end.

(** The builtin [min] keeps the current item unless a later one is [<] it;
    [max] unless a later one is [>] it. *)
Fixpoint extremum (better : value → value → result bool)
    (cur : value) (xs : list value) : result value :=
  match xs with
  | [] => Ok cur
  | x :: xs' => b ← better x cur; extremum better (if b : bool then x else cur) xs'
  end.

(** [min(xs) if xs else 0] *)
Definition minimum (xs : list value) : result value :=
  match xs with [] => Ok (VInt 0) | x :: xs' => extremum py_lt x xs' end.

(** [max(xs) if xs else 0] *)
Definition maximum (xs : list value) : result value :=
  match xs with [] => Ok (VInt 0) | x :: xs' => extremum py_gt x xs' end.

(** The branch [group['_id'] is None]: one result dictionary with an entry
    for each of the four recognised accumulator names. *)
Definition overall (items : list doc) (group : group_spec) : result doc :=
  let prices := (λ item, dict_get item "price" (VInt 0)) <$> items in
  let ratings := (λ item, dict_get item "star_rating" (VInt 0)) <$> items in
  let has name := bool_decide (name ∈ group_accumulators group) in
  r1 ← (if has "avg_price"
        then v ← average prices; Ok (<["avg_price" := v]> (∅ : doc)) else Ok ∅);
  r2 ← (if has "min_price"
        then v ← minimum prices; Ok (<["min_price" := v]> r1) else Ok r1);
  r3 ← (if has "max_price"
        then v ← maximum prices; Ok (<["max_price" := v]> r2) else Ok r2);
  if has "avg_rating"
  then v ← average ratings; Ok (<["avg_rating" := v]> r3) else Ok r3.

(** [item.get(group_field, 'Unknown')]: the documents' keys are strings, so
    any other [group_field] finds nothing. *)
Definition group_key (item : doc) (group_field : value) : value :=
  match group_field with
  | VStr f => dict_get item f (VStr "Unknown")
  | _ => VStr "Unknown"
  end.

(** [groups.setdefault(key, []).append(item)] on a dictionary kept in
    insertion order; keys are found by [==]. *)
Fixpoint setdefault_append (key : value) (item : doc)
    (groups : list (value * list doc)) : list (value * list doc) :=
  match groups with
  | [] => [(key, [item])]
  | (k, items) :: groups' =>
      if py_eq k key then (k, (items ++ [item])%list) :: groups'
      else (k, items) :: setdefault_append key item groups'
  end.

Definition group_by (items : list doc) (group_field : value)
    : list (value * list doc) :=
  foldl (λ groups item, setdefault_append (group_key item group_field) item groups)
        [] items.

(** [to_list]: the loop over the pipeline returns from inside the first
    stage that has a [$group] entry; [self.data] is the store's list. *)
Fixpoint run (items : list doc) (pipeline : list stage) : result (list doc) :=
  match pipeline with
  | [] => Ok []
  | stage :: pipeline' =>
      match stage_group stage with
      | Some group =>
          match group_id group with
          | None => Raise KeyError
          | Some VNone => result ← overall items group; Ok [result]
          | Some group_field =>
              Ok ((λ '(key, items),
                     <["_id" := key]> (<["count" := VInt (Z.of_nat (length items))]> (∅ : doc)))
                  <$> group_by items group_field)
          end
      | None => run items pipeline'
      end
  end.

Definition to_list (st : state) (pipeline : list stage) (length : option Z)
    : result (list doc) :=
  run (contents st) pipeline.

End with_runtime.
End MemoryAggregationCursor.

(** ** MemoryCollection *)

(** The [$set] entry of an update document, when it has one. *)
Record update_doc := UpdateDoc { upd_set : option doc }.

Record UpdateResult := MkUpdateResult { matched_count : Z; modified_count : Z }.

Module MemoryCollection.
Section with_runtime.
Context {rt : PyRuntime}.

(** The two [elif] branches for [$gte] and [$lte]: each condition holds
    the membership test and the comparison, so a bound that is present and
    respected falls through to the next branch.  [false] is [return False]. *)
Definition match_bounds (x : value) (ops : gmap string value) : result bool :=
  below ← match ops !! "$gte" with
          | Some lo => py_lt x lo
          | None => Ok false
          end;
  if below : bool then Ok false
  else
    above ← match ops !! "$lte" with
            | Some hi => py_gt x hi
            | None => Ok false
            end;
    Ok (negb above).

(** One turn of the loop of [_match_query]: [false] is [return False],
    [true] goes on to the next item of the filter. *)
Definition match_item (item : doc) (key : string) (value : qvalue) : result bool :=
  match item !! key with
  | None => Ok false
  | Some x =>
      match value with
      | QOps ops =>
          match ops !! "$regex" with
          | Some pattern =>
              let flags := py_eq (dict_get ops "$options" VNone) (VStr "i") in
              re_search pattern (py_str x) flags
          | None => match_bounds x ops
          end
      | QLit v => Ok (py_eq x v)
      end
  end.

Fixpoint _match_query (item : doc) (query : query) : result bool :=
  match query with
  | [] => Ok true
  | (key, value) :: query' =>
      b ← match_item item key value;
      if b : bool then _match_query item query' else Ok false
  end.

(** [insert_one]: [now] is the reading of [int(datetime.now().timestamp())].
    The identifier is written into the caller's dictionary, whose copy is
    appended. *)
Definition new_id (st : state) (now : Z) : value :=
  VStr ("mem_" +:+ pretty (Z.of_nat (length (_memory_storage st)))
          +:+ "_" +:+ pretty now).

Definition insert_one (now : Z) (document : loc) (st : state) : value * state :=
  let id := new_id st now in
  let h1 := <[document := <["_id" := id]> (deref (heap st) document)]> (heap st) in
  let '(copy, h2) := alloc (deref h1 document) h1 in
  (id, State h2 (_memory_storage st ++ [copy])%list (_use_memory_storage st)).

(** [insert_many]: the same three statements for each document in turn;
    [clock i] is the clock reading at the [i]-th document. *)
Fixpoint insert_many_from (clock : nat → Z) (i : nat) (documents : list loc)
    (st : state) : list value * state :=
  match documents with
  | [] => ([], st)
  | doc :: documents' =>
      let '(id, st1) := insert_one (clock i) doc st in
      let '(ids, st2) := insert_many_from clock (S i) documents' st1 in
      (id :: ids, st2)
  end.

Definition insert_many (clock : nat → Z) (documents : list loc) (st : state)
    : list value * state :=
  insert_many_from clock 0 documents st.

(** The scan shared by [find_one], [update_one] and [delete_one]: the
    index and the reference of the first stored document the filter
    accepts. *)
Fixpoint first_match (h : gmap loc doc) (query : query) (i : nat)
    (items : list loc) : result (option (nat * loc)) :=
  match items with
  | [] => Ok None
  | item :: items' =>
      b ← _match_query (deref h item) query;
      if b : bool then Ok (Some (i, item)) else first_match h query (S i) items'
  end.

(** [find_one] returns the stored dictionary itself. *)
Definition find_one (query : query) (st : state) : result (option loc) :=
  m ← first_match (heap st) query 0 (_memory_storage st);
  match m with
  | Some (_, item) => Ok (Some item)
  | None => Ok None
  end.

(** [[item for item in _memory_storage if self._match_query(item, query)]] *)
Fixpoint matching (h : gmap loc doc) (query : query) (items : list loc)
    : result (list loc) :=
  match items with
  | [] => Ok []
  | item :: items' =>
      b ← _match_query (deref h item) query;
      r ← matching h query items';
      Ok (if b : bool then item :: r else r)
  end.

Definition find (query : option query) (st : state) : result MemoryCursor.cursor :=
  let query := default [] query in
  results ← matching (heap st) query (_memory_storage st);
  Ok (MemoryCursor.init results).

(** [update_one]: [item.update(update['$set'])] on the first match, in
    place.  An exception can only come from the scan, before any write. *)
Definition update_one (query : query) (update : update_doc) (st : state)
    : result (UpdateResult * state) :=
  m ← first_match (heap st) query 0 (_memory_storage st);
  match m with
  | Some (_, item) =>
      let h' :=
        match upd_set update with
        | Some fields => <[item := fields ∪ deref (heap st) item]> (heap st)
        | None => heap st
        end in
      Ok (MkUpdateResult 1 1, State h' (_memory_storage st) (_use_memory_storage st))
  | None => Ok (MkUpdateResult 0 0, st)
  end.

(** [delete_one]: [del _memory_storage[i]] at the first match. *)
Definition delete_one (query : query) (st : state) : result (Z * state) :=
  m ← first_match (heap st) query 0 (_memory_storage st);
  match m with
  | Some (i, _) =>
      Ok (1, State (heap st) (delete i (_memory_storage st)) (_use_memory_storage st))
  | None => Ok (0, st)
  end.

(** The loop of [delete_many] walks the indices downwards, so the tail of
    the list is visited before its head; what it has deleted stays deleted
    when a later test raises. *)
Fixpoint delete_matching (h : gmap loc doc) (query : query) (items : list loc)
    : result Z * list loc :=
  match items with
  | [] => (Ok 0, [])
  | item :: items' =>
      let '(r, kept) := delete_matching h query items' in
      match r with
      | Raise e => (Raise e, item :: kept)
      | Ok deleted_count =>
          match _match_query (deref h item) query with
          | Raise e => (Raise e, item :: kept)
          | Ok true => (Ok (deleted_count + 1), kept)
          | Ok false => (Ok deleted_count, item :: kept)
          end
      end
  end.

(** [delete_many]: [not query] holds of [None] and of the empty filter. *)
Definition delete_many (query : option query) (st : state) : result Z * state :=
  match query with
  | None | Some [] =>
      let count := Z.of_nat (length (_memory_storage st)) in
      (Ok count, State (heap st) [] (_use_memory_storage st))
  | Some query =>
      let '(r, kept) := delete_matching (heap st) query (_memory_storage st) in
      (r, State (heap st) kept (_use_memory_storage st))
  end.

Definition count_documents (query : option query) (st : state) : result Z :=
  match query with
  | None => Ok (Z.of_nat (length (_memory_storage st)))
  | Some query =>
      r ← matching (heap st) query (_memory_storage st);
      Ok (Z.of_nat (length r))
  end.

(** [aggregate(pipeline)] followed by the cursor's [to_list]. *)
Definition aggregate (pipeline : list stage) (st : state) : result (list doc) :=
  MemoryAggregationCursor.to_list st pipeline None.

End with_runtime.
End MemoryCollection.

(** ** Connection lifecycle *)

(** What [json.load] hands back for the snapshot file, as far as
    [_load_memory_data] tells values apart: a dictionary, with the list of
    documents under [books] when it has that key; a list of documents; or
    anything else. *)
Inductive json :=
  | JDict (books : option (list doc))
  | JList (items : list doc)
  | JOther.

(** The parsed dictionaries become objects of the heap. *)
Fixpoint alloc_all (ds : list doc) (h : gmap loc doc) : list loc * gmap loc doc :=
  match ds with
  | [] => ([], h)
  | d :: ds' =>
      let '(l, h1) := alloc d h in
      let '(ls, h2) := alloc_all ds' h1 in
      (l :: ls, h2)
  end.

(** [_memory_storage.extend(items)] *)
Definition extend (items : list doc) (st : state) : state :=
  let '(ls, h) := alloc_all items (heap st) in
  State h (_memory_storage st ++ ls)%list (_use_memory_storage st).

(** [_load_memory_data]: [file] is the outcome of opening [books_data.json]
    and of [json.load] on it.  Only [FileNotFoundError] has a handler.  The
    result pairs what propagates with the state left behind. *)
Definition _load_memory_data (file : result json) (st : state) : result () * state :=
  match file with
  | Ok data =>
      match data with
      | JDict (Some books) => (Ok (), extend books st)
      | JDict None => (Ok (), st)
      | JList items => (Ok (), extend items st)
      | JOther => (Ok (), st)
      end
  | Raise FileNotFoundError =>
      (Ok (), State (heap st) [] (_use_memory_storage st))
  | Raise e => (Raise e, st)
  end.

(** [connect_to_mongo]: [handshake] is the outcome of the [try] body (client
    construction, [ping], index creation); any exception there selects the
    fallback, whose load runs inside the handler. *)
Definition connect_to_mongo (handshake : result ()) (file : result json)
    (st : state) : result () * state :=
  match handshake with
  | Ok _ => (Ok (), State (heap st) (_memory_storage st) false)
  | Raise _ =>
      _load_memory_data file (State (heap st) (_memory_storage st) true)
  end.

(** ** The shape of a store

    The storage list holds distinct objects of the heap: [insert_one] and
    the snapshot load only ever append objects they have just created. *)
Definition well_formed (st : state) : Prop :=
  NoDup (_memory_storage st) ∧ ∀ l, l ∈ _memory_storage st → l ∈ dom (heap st).

(** ** What it means to be the stable sort of a list

    [key_le] is the order of the keys as [<] answers it, [key_ge] its
    converse; a list keeps the [same_key_order] as another when, for every
    key, the documents with that key come in the same order in both. *)
Section sort_spec.
Context {A : Type} (key : A → value).

Definition key_le (a b : A) : Prop := py_lt (key b) (key a) = Ok false.
Definition key_ge (a b : A) : Prop := py_lt (key a) (key b) = Ok false.

Definition same_key_order (s l : list A) : Prop :=
  ∀ k, filter (λ x, py_eq (key x) k = true) s
       = filter (λ x, py_eq (key x) k = true) l.

Definition comparable (l : list A) : Prop :=
  ∀ x y, x ∈ l → y ∈ l → ∃ b, py_lt (key x) (key y) = Ok b.

Definition stable_sort_of (descending : bool) (s l : list A) : Prop :=
  s ≡ₚ l
  ∧ StronglySorted (if descending then key_ge else key_le) s
  ∧ same_key_order s l.
End sort_spec.

(** ** A runtime and a store to evaluate examples on

    [example_runtime] stands in for CPython where a statement is evaluated
    on concrete data: exact rational arithmetic where CPython rounds, and the
    literal fragment of [re], in which a pattern without metacharacters is
    found where it occurs as a substring.  The general statements below hold
    of every runtime. *)

Fixpoint occurs_in (p s : string) : bool :=
  String.prefix p s ||
  match s with
  | EmptyString => false
  | String _ s' => occurs_in p s'
  end.

Definition ascii_lower (a : Ascii.ascii) : Ascii.ascii :=
  let n := Ascii.N_of_ascii a in
  if ((65 <=? n) && (n <=? 90))%N then Ascii.ascii_of_N (n + 32) else a.

Fixpoint string_lower (s : string) : string :=
  match s with
  | EmptyString => EmptyString
  | String a s' => String (ascii_lower a) (string_lower s')
  end.

Definition add_values (a b : value) : result value :=
  match a, b with
  | VInt x, VInt y => Ok (VInt (x + y))
  | _, _ =>
      match as_number a, as_number b with
      | Some x, Some y => Ok (VFloat (x + y))
      | _, _ => Raise TypeError
      end
  end.

Definition example_runtime : PyRuntime := {|
  py_str v :=
    match v with
    | VNone => "None"
    | VInt z => pretty z
    | VFloat q => pretty (Qnum q) +:+ "/" +:+ pretty (Zpos (Qden q))
    | VStr s => s
    end;
  re_search pattern subject ignorecase :=
    match pattern with
    | VStr p =>
        Ok (if ignorecase then occurs_in (string_lower p) (string_lower subject)
            else occurs_in p subject)
    | _ => Raise TypeError
    end;
  py_sum xs := foldl (λ acc x, a ← acc; add_values a x) (Ok (VInt 0)) xs;
  py_truediv v n :=
    match as_number v with
    | Some x => if bool_decide (n = 0) then Raise ZeroDivisionError
                else Ok (VFloat (x / Qc_of_Z n))
    | None => Raise TypeError
    end
|}.

(** The three books of the spec's scenario, stored in this order. *)
Definition book (title : string) (price star_rating : Z) : doc :=
  <["title" := VStr title]>
    (<["price" := VInt price]> (<["star_rating" := VInt star_rating]> ∅)).

Definition example_heap : gmap loc doc :=
  <[1%positive := book "A" 10 3]>
    (<[2%positive := book "B" 50 5]> (<[3%positive := book "C" 30 5]> ∅)).

Definition example_store : state :=
  State example_heap [1%positive; 2%positive; 3%positive] true.

(** A range filter on the price that also carries a pattern, a filter with
    an operator the matcher does not know, and a document for them. *)
Definition range_with_regex : gmap string value :=
  <["$regex" := VStr "5"]> (<["$gte" := VInt 10]> (<["$lte" := VInt 20]> ∅)).

Definition not_equal_5 : gmap string value := <["$ne" := VInt 5]> ∅.

Definition price_5 : doc := <["price" := VInt 5]> ∅.

(** A dictionary that already carries an identifier, held by the caller
    and not by the store. *)
Definition store_and_caller : state :=
  State (<[4%positive := <["_id" := VStr "abc"]> (book "D" 20 4)]> example_heap)
        [1%positive; 2%positive; 3%positive] true.

(** The rating distribution, most stars first: a group stage on the rating
    followed by a descending sort stage on the group key. *)
Definition rating_pipeline : list stage :=
  [MkStage (Some (MkGroup (Some (VStr "star_rating")) {["count"]})) None;
   MkStage None (Some ("_id", -1))].

Definition rating_group (rating count : Z) : doc :=
  <["_id" := VInt rating]> (<["count" := VInt count]> ∅).

(** ** What a filter selects

    A filter [accepts] a stored document when the matcher returns [True] on
    it, and the matcher [answers] on a list when it returns, by [True] or
    [False], on each of its documents. *)
Section selection.
Context {rt : PyRuntime}.

Definition accepts (h : gmap loc doc) (q : query) (l : loc) : bool :=
  match MemoryCollection._match_query (deref h l) q with
  | Ok true => true
  | _ => false
  end.

Definition answers (h : gmap loc doc) (q : query) (items : list loc) : Prop :=
  ∀ l, l ∈ items → ∃ b, MemoryCollection._match_query (deref h l) q = Ok b.
End selection.

(** A store whose second document holds a price that is not a number. *)
Definition mixed_store : state :=
  State (<[2%positive := <["price" := VStr "n/a"]> (book "B" 50 5)]> example_heap)
        [1%positive; 2%positive; 3%positive] true.

Definition price_at_least (lo : Z) : query :=
  [("price", QOps (<["$gte" := VInt lo]> ∅))].

(** ** The snapshot written at shutdown

    [close_mongo_connection] dumps a dictionary to [books_data.json] when the
    fallback backend is in use and holds at least one document, and writes
    nothing otherwise.  The definition gives the dictionary handed to
    [json.dump], seen as [json.load] returns it after a successful write: a
    dictionary whose [books] entry is the list of the stored documents (the
    [metadata] entry is never read back).  Closing the client does not touch
    the store. *)
Definition close_mongo_connection (st : state) : option json :=
  if _use_memory_storage st && bool_decide (_memory_storage st ≠ [])
  then Some (JDict (Some (contents st)))
  else None.

(** * Properties *)

(** ** The order on values *)

Lemma string_compare_refl (s : string) : String.compare s s = Eq.
Proof.
  pose proof (String.compare_antisym s s) as H.
  destruct (String.compare s s); simpl in H; congruence.
Qed.

Lemma ascii_compare_lt_trans (a b c : Ascii.ascii) :
  Ascii.compare a b = Lt → Ascii.compare b c = Lt → Ascii.compare a c = Lt.
Proof.
  unfold Ascii.compare. rewrite !N.compare_lt_iff. lia.
Qed.

Lemma ascii_compare_refl (a : Ascii.ascii) : Ascii.compare a a = Eq.
Proof. unfold Ascii.compare. apply N.compare_refl. Qed.

Lemma string_compare_lt_trans (a b c : string) :
  String.compare a b = Lt → String.compare b c = Lt → String.compare a c = Lt.
Proof.
  revert b c. induction a as [|x a IH]; intros [|y b] [|z c]; simpl; try done.
  destruct (Ascii.compare x y) eqn:Hxy; try done;
    destruct (Ascii.compare y z) eqn:Hyz; try done; intros Hab Hbc.
  - apply Ascii.compare_eq_iff in Hxy as ->. apply Ascii.compare_eq_iff in Hyz as ->.
    rewrite ascii_compare_refl. eauto.
  - apply Ascii.compare_eq_iff in Hxy as ->. by rewrite Hyz.
  - apply Ascii.compare_eq_iff in Hyz as <-. by rewrite Hxy.
  - by rewrite (ascii_compare_lt_trans _ _ _ Hxy Hyz).
Qed.

Lemma string_ltb_asym (s t : string) : String.ltb s t = true → String.ltb t s = false.
Proof.
  unfold String.ltb. rewrite (String.compare_antisym t s).
  by destruct (String.compare s t).
Qed.

Lemma string_ltb_irrefl (s : string) : String.ltb s s = false.
Proof. unfold String.ltb. by rewrite string_compare_refl. Qed.

Lemma string_leb_trans (a b c : string) :
  String.ltb b a = false → String.ltb c b = false → String.ltb c a = false.
Proof.
  unfold String.ltb. intros Hba Hcb.
  destruct (String.compare c a) eqn:Hca; try done.
  destruct (String.compare c b) eqn:Hcb'; try done.
  - apply String.compare_eq_iff in Hcb' as ->. by rewrite Hca in Hba.
  - assert (String.compare b c = Lt) as Hbc.
    { rewrite String.compare_antisym, Hcb'. done. }
    by rewrite (string_compare_lt_trans _ _ _ Hbc Hca) in Hba.
Qed.

Lemma py_lt_asym (a b : value) : py_lt a b = Ok true → py_lt b a = Ok false.
Proof.
  destruct a, b; simpl; try done; intros [= Hlt]; f_equal;
    try (apply bool_decide_eq_true in Hlt; apply bool_decide_eq_false;
         intros Hgt; by destruct (Qclt_not_le _ _ Hlt (Qclt_le_weak _ _ Hgt))).
  by apply string_ltb_asym.
Qed.

Lemma py_lt_comparable_sym (a b : value) r :
  py_lt a b = Ok r → ∃ r', py_lt b a = Ok r'.
Proof. destruct a, b; simpl; try done; eauto. Qed.

Lemma py_lt_comparable_trans (a b c : value) r1 r2 :
  py_lt a b = Ok r1 → py_lt b c = Ok r2 → ∃ r3, py_lt a c = Ok r3.
Proof. destruct a, b, c; simpl; try done; eauto. Qed.

Lemma py_le_trans (a b c : value) :
  py_lt b a = Ok false → py_lt c b = Ok false → py_lt c a = Ok false.
Proof.
  destruct a, b, c; simpl; try done; intros [= Hba] [= Hcb]; f_equal;
    try (apply bool_decide_eq_false in Hba, Hcb; apply bool_decide_eq_false;
         apply Qcle_not_lt; eapply Qcle_trans; by apply Qcnot_lt_le).
  by eapply string_leb_trans.
Qed.

Lemma py_lt_not_eq (a b k : value) :
  py_lt a b = Ok true → py_eq a k = true → py_eq b k = true → False.
Proof.
  destruct a, b, k; simpl; try done; intros [= Hlt];
    rewrite ?bool_decide_eq_true; intros Ha Hb;
    try (apply bool_decide_eq_true in Hlt; rewrite Ha, <- Hb in Hlt;
         by apply (Qclt_not_le _ _ Hlt), Qcle_refl).
  subst. by rewrite string_ltb_irrefl in Hlt.
Qed.

(** ** The sort *)

Lemma bind_Ok {A B} (m : result A) (f : A → result B) (b : B) :
  m ≫= f = Ok b ↔ ∃ a, m = Ok a ∧ f a = Ok b.
Proof. destruct m; simpl; split; [eauto| |done|]; by intros (? & [= ->] & ?) || intros (? & ? & ?). Qed.

Section sort_facts.
Context {A : Type} (key : A → value).
Implicit Types (x y : A) (l r s : list A).

#[local] Instance key_le_trans : Transitive (key_le key).
Proof. intros a b c Hab Hbc. unfold key_le in *. eauto using py_le_trans. Qed.

Lemma insert_sorted_returns x l :
  (∀ y, y ∈ l → ∃ b, py_lt (key y) (key x) = Ok b) →
  ∃ r, insert_sorted key x l = Ok r.
Proof.
  induction l as [|y l IH]; intros Hcmp; simpl; [eauto|].
  destruct (Hcmp y) as [b ->]; [left|]. simpl.
  destruct b; [|eauto].
  destruct IH as [r ->]; [|simpl; eauto].
  intros z Hz. apply Hcmp. by right.
Qed.

Lemma insert_sorted_perm x l r : insert_sorted key x l = Ok r → r ≡ₚ x :: l.
Proof.
  revert r. induction l as [|y l IH]; intros r; simpl.
  - by intros [= <-].
  - intros (b & Hb & Hr)%bind_Ok. destruct b.
    + apply bind_Ok in Hr as (r' & Hr' & [= <-]).
      rewrite (IH _ Hr'). apply Permutation_swap.
    + by injection Hr as <-.
Qed.

Lemma insert_sorted_HdRel x y l r :
  insert_sorted key x l = Ok r →
  key_le key y x → HdRel (key_le key) y l → HdRel (key_le key) y r.
Proof.
  destruct l as [|z l]; simpl.
  - intros [= <-] ? _. by constructor.
  - intros (b & Hb & Hr)%bind_Ok Hyx Hyz. destruct b.
    + apply bind_Ok in Hr as (r' & _ & [= <-]).
      constructor. by inv Hyz.
    + injection Hr as <-. by constructor.
Qed.

Lemma insert_sorted_Sorted x l r :
  Sorted (key_le key) l → insert_sorted key x l = Ok r → Sorted (key_le key) r.
Proof.
  intros Hl. revert r. induction Hl as [|y l Hl IH Hhd]; intros r; simpl.
  - intros [= <-]. repeat constructor.
  - intros (b & Hb & Hr)%bind_Ok. destruct b.
    + apply bind_Ok in Hr as (r' & Hr' & [= <-]).
      constructor; [by apply IH|].
      eapply insert_sorted_HdRel; [done| |done].
      by apply py_lt_asym.
    + injection Hr as <-. repeat constructor; done.
Qed.

Lemma insert_sorted_filter x l r k :
  insert_sorted key x l = Ok r →
  filter (λ z, py_eq (key z) k = true) r
  = filter (λ z, py_eq (key z) k = true) (x :: l).
Proof.
  revert r. induction l as [|y l IH]; intros r; simpl.
  - by intros [= <-].
  - intros (b & Hb & Hr)%bind_Ok. destruct b; [|by injection Hr as <-].
    apply bind_Ok in Hr as (r' & Hr' & [= <-]).
    rewrite (filter_cons _ y r'), (IH _ Hr'), !filter_cons.
    repeat case_decide; try done.
    by destruct (py_lt_not_eq _ _ k Hb).
Qed.

Lemma sort_ascending_perm l s : sort_ascending key l = Ok s → s ≡ₚ l.
Proof.
  revert s. induction l as [|x l IH]; intros s; simpl.
  - by intros [= <-].
  - intros (s' & Hs' & Hs)%bind_Ok.
    rewrite (insert_sorted_perm _ _ _ Hs). by rewrite (IH _ Hs').
Qed.

Lemma sort_ascending_returns l :
  comparable key l → ∃ s, sort_ascending key l = Ok s.
Proof.
  induction l as [|x l IH]; intros Hcmp; simpl; [eauto|].
  destruct IH as [s Hs].
  { intros y z Hy Hz. apply Hcmp; by right. }
  rewrite Hs. simpl. apply insert_sorted_returns.
  intros y Hy. apply Hcmp; [right|left].
  by rewrite <- (sort_ascending_perm _ _ Hs).
Qed.

Lemma sort_ascending_Sorted l s :
  sort_ascending key l = Ok s → Sorted (key_le key) s.
Proof.
  revert s. induction l as [|x l IH]; intros s; simpl.
  - intros [= <-]. constructor.
  - intros (s' & Hs' & Hs)%bind_Ok. eauto using insert_sorted_Sorted.
Qed.

Lemma sort_ascending_stable l s :
  sort_ascending key l = Ok s → same_key_order key s l.
Proof.
  revert s. induction l as [|x l IH]; intros s; simpl.
  - by intros [= <-].
  - intros (s' & Hs' & Hs)%bind_Ok k.
    rewrite (insert_sorted_filter _ _ _ k Hs), !filter_cons.
    by rewrite (IH _ Hs' k).
Qed.

Lemma comparable_reverse l : comparable key l → comparable key (reverse l).
Proof. intros H x y. rewrite !elem_of_reverse. apply H. Qed.

(** [list.sort] returns on a list whose keys can be compared with one
    another, and what it returns is the stable sort. *)
Lemma list_sort_returns descending l :
  comparable key l → ∃ s, list_sort key descending l = Ok s.
Proof.
  intros Hcmp. destruct descending; simpl; [|by apply sort_ascending_returns].
  destruct (sort_ascending_returns (reverse l)) as [s ->];
    [by apply comparable_reverse|]. simpl. eauto.
Qed.

Lemma list_sort_stable descending l s :
  list_sort key descending l = Ok s → stable_sort_of key descending s l.
Proof.
  destruct descending; simpl.
  - intros (r & Hr & [= <-])%bind_Ok. split_and!.
    + by rewrite reverse_Permutation, (sort_ascending_perm _ _ Hr),
        reverse_Permutation.
    + change (key_ge key) with (flip (key_le key)).
      apply Sorted_StronglySorted; [apply _|].
      apply Sorted_reverse. by eapply sort_ascending_Sorted.
    + intros k. rewrite filter_reverse, (sort_ascending_stable _ _ Hr k).
      by rewrite filter_reverse, reverse_involutive.
  - intros Hs. split_and!.
    + by eapply sort_ascending_perm.
    + apply Sorted_StronglySorted; [apply _|]. by eapply sort_ascending_Sorted.
    + by apply sort_ascending_stable.
Qed.
End sort_facts.

(** ** Slices *)

Lemma take_clamp {A} (l : list A) (n : nat) :
  take (n `min` length l) l = take n l.
Proof.
  destruct (decide (n ≤ length l)%nat).
  - by rewrite Nat.min_l.
  - rewrite Nat.min_r, !take_ge; [done|lia..].
Qed.

Lemma py_slice_from {A} (l : list A) (start : Z) :
  0 ≤ start → py_slice l start None = drop (Z.to_nat start) l.
Proof.
  intros Hs. unfold py_slice, slice_index.
  destruct (Z.ltb_spec start 0); [lia|].
  destruct (decide (start ≤ Z.of_nat (length l))).
  - rewrite Z.min_l by done. apply take_ge. rewrite length_drop. lia.
  - rewrite Z.min_r by lia. rewrite Nat2Z.id, !drop_ge by lia. by rewrite take_nil.
Qed.

Lemma py_slice_range {A} (l : list A) (start n : Z) :
  0 ≤ start → 0 ≤ n →
  py_slice l start (Some (start + n))
  = take (Z.to_nat n) (drop (Z.to_nat start) l).
Proof.
  intros Hs Hn. unfold py_slice, slice_index.
  destruct (Z.ltb_spec start 0); [lia|].
  destruct (Z.ltb_spec (start + n) 0); [lia|].
  destruct (decide (start ≤ Z.of_nat (length l))).
  - rewrite (Z.min_l start) by done.
    rewrite <- (take_clamp _ (Z.to_nat n)). f_equal. rewrite length_drop. lia.
  - rewrite (Z.min_r start) by lia. rewrite Nat2Z.id, !drop_ge by lia.
    by rewrite !take_nil.
Qed.

(** ** The matcher *)

Section matcher_facts.
Context {rt : PyRuntime}.
Import MemoryCollection.

Lemma _match_query_true_item (item : doc) (q : query) key value :
  (key, value) ∈ q → _match_query item q = Ok true →
  match_item item key value = Ok true.
Proof.
  induction q as [|[k v] q IH]; [by intros ?%elem_of_nil|].
  intros Hin. simpl. intros (b & Hb & Hq)%bind_Ok. destruct b; [|done].
  apply elem_of_cons in Hin as [[= -> ->]|Hin]; eauto.
Qed.

Lemma match_bounds_true (x : value) (ops : gmap string value) lo hi :
  ops !! "$gte" = Some lo → ops !! "$lte" = Some hi →
  match_bounds x ops = Ok true ↔ py_lt x lo = Ok false ∧ py_gt x hi = Ok false.
Proof.
  intros Hlo Hhi. unfold match_bounds. rewrite Hlo, Hhi. split.
  - intros (below & Hbelow & Hrest)%bind_Ok. destruct below; [done|].
    apply bind_Ok in Hrest as (above & Habove & [= Hneg]).
    by destruct above.
  - by intros [-> ->].
Qed.

Lemma match_item_range (item : doc) key ops x :
  item !! key = Some x → ops !! "$regex" = None →
  match_item item key (QOps ops) = match_bounds x ops.
Proof. intros Hx Hre. unfold match_item. by rewrite Hx, Hre. Qed.

Lemma _match_query_single (item : doc) key value :
  _match_query item [(key, value)] = match_item item key value.
Proof. simpl. by destruct (match_item item key value) as [[]|]. Qed.

(** C1, as amended: an operator object with [$gte] and [$lte] and without
    [$regex] constrains its field by both inclusive bounds.  A document a
    filter accepts has the field within the bounds, whichever other items
    the filter holds; and the filter made of that one item rejects the
    document when the lower bound is violated, rejects it when the upper
    bound is violated, and accepts it when both hold. *)
Theorem range_bounds_combine_as_and (item : doc) (q : query) key ops lo hi :
  (key, QOps ops) ∈ q →
  ops !! "$regex" = None → ops !! "$gte" = Some lo → ops !! "$lte" = Some hi →
  (_match_query item q = Ok true →
     ∃ x, item !! key = Some x ∧ py_lt x lo = Ok false ∧ py_gt x hi = Ok false)
  ∧ (∀ x, item !! key = Some x →
       (py_lt x lo = Ok true →
          _match_query item [(key, QOps ops)] = Ok false)
       ∧ (py_lt x lo = Ok false → py_gt x hi = Ok true →
          _match_query item [(key, QOps ops)] = Ok false)
       ∧ (py_lt x lo = Ok false → py_gt x hi = Ok false →
          _match_query item [(key, QOps ops)] = Ok true)).
Proof.
  intros Hin Hre Hlo Hhi. split.
  - intros Hq. pose proof (_match_query_true_item _ _ _ _ Hin Hq) as Hitem.
    destruct (item !! key) as [x|] eqn:Hx.
    + rewrite (match_item_range _ _ _ x) in Hitem by done.
      apply (match_bounds_true _ _ lo hi) in Hitem; eauto.
    + unfold match_item in Hitem. by rewrite Hx in Hitem.
  - intros x Hx. rewrite _match_query_single, (match_item_range _ _ _ x) by done.
    unfold match_bounds. rewrite Hlo, Hhi.
    split_and!; [by intros ->|by intros -> ->..].
Qed.

(** C7, as amended: an operator object with none of [$regex], [$gte] and
    [$lte] raises nothing and constrains nothing beyond the presence of
    its field: its item rejects a document without the field, and
    dropping the item from a filter does not change the verdict on a
    document that has the field. *)
Theorem unsupported_operators_constrain_nothing
    (item : doc) (q1 q2 : query) key ops :
  ops !! "$regex" = None → ops !! "$gte" = None → ops !! "$lte" = None →
  match_item item key (QOps ops) = Ok (bool_decide (is_Some (item !! key)))
  ∧ (is_Some (item !! key) →
       _match_query item (q1 ++ (key, QOps ops) :: q2)%list
       = _match_query item (q1 ++ q2)%list).
Proof.
  intros Hre Hlo Hhi.
  assert (match_item item key (QOps ops)
          = Ok (bool_decide (is_Some (item !! key)))) as Hitem.
  { unfold match_item, match_bounds. rewrite Hre, Hlo, Hhi.
    by destruct (item !! key). }
  split; [done|]. intros Hsome.
  induction q1 as [|[k v] q1 IH]; simpl.
  - by rewrite Hitem, bool_decide_eq_true_2.
  - by rewrite IH.
Qed.
End matcher_facts.

(** C1, the claim as written fails: this operator object carries both
    bounds, the price 5 lies below the lower bound 10, and the document is
    accepted, because the [$regex] branch is taken and the bounds are not
    looked at. *)
Lemma regex_shadows_range_bounds :
  range_with_regex !! "$gte" = Some (VInt 10)
  ∧ range_with_regex !! "$lte" = Some (VInt 20)
  ∧ price_5 !! "price" = Some (VInt 5)
  ∧ py_lt (VInt 5) (VInt 10) = Ok true
  ∧ MemoryCollection._match_query (rt := example_runtime)
      price_5 [("price", QOps range_with_regex)] = Ok true.
Proof. by vm_compute. Qed.

(** The first book, accepted by a filter on its rating and on a price between
    5 and 20, has its price within these bounds. *)
Lemma range_bounds_combine_as_and_witness :
  ∃ x, book "A" 10 3 !! "price" = Some x
       ∧ py_lt x (VInt 5) = Ok false ∧ py_gt x (VInt 20) = Ok false.
Proof.
  apply (proj1 (range_bounds_combine_as_and (rt := example_runtime)
                  (book "A" 10 3)
                  [("star_rating", QLit (VInt 3));
                   ("price", QOps (<["$gte" := VInt 5]> (<["$lte" := VInt 20]> ∅)))]
                  "price"
                  (<["$gte" := VInt 5]> (<["$lte" := VInt 20]> ∅))
                  (VInt 5) (VInt 20)
                  ltac:(right; left) eq_refl eq_refl eq_refl)).
  reflexivity.
Defined.

(** C7, the claim as written fails: the operator object holds [$ne] alone,
    and the document, whose price is the very value excluded, is accepted. *)
Lemma unsupported_operator_accepts :
  not_equal_5 !! "$regex" = None
  ∧ not_equal_5 !! "$gte" = None
  ∧ not_equal_5 !! "$lte" = None
  ∧ MemoryCollection._match_query (rt := example_runtime)
      price_5 [("price", QOps not_equal_5)] = Ok true.
Proof. by vm_compute. Qed.

(** The [$ne] object passes a document that has the price and fails one asked
    for a field it does not have. *)
Lemma unsupported_operators_constrain_nothing_witness :
  MemoryCollection.match_item (rt := example_runtime)
    price_5 "price" (QOps not_equal_5) = Ok true
  ∧ MemoryCollection.match_item (rt := example_runtime)
      price_5 "title" (QOps not_equal_5) = Ok false.
Proof.
  split.
  - refine (proj1 (unsupported_operators_constrain_nothing (rt := example_runtime)
                     price_5 [] [] "price" not_equal_5 _ _ _)); reflexivity.
  - refine (proj1 (unsupported_operators_constrain_nothing (rt := example_runtime)
                     price_5 [] [] "title" not_equal_5 _ _ _)); reflexivity.
Defined.

(** ** The cursor *)

Section cursor_facts.
Import MemoryCursor.

Lemma sorted_data_returns (h : gmap loc doc) (c : cursor) :
  (∀ field, _sort_field c = Some field → field ≠ "" →
     comparable (sort_key h field) (data c)) →
  ∃ s, sorted_data h c = Ok s.
Proof.
  intros Hcmp. unfold sorted_data.
  destruct (_sort_field c) as [field|]; [|eauto].
  case_bool_decide; [eauto|]. by apply list_sort_returns, Hcmp.
Qed.

Lemma sorted_data_stable (h : gmap loc doc) (c : cursor) s :
  sorted_data h c = Ok s →
  match _sort_field c with
  | Some field =>
      if bool_decide (field = "") then s = data c
      else stable_sort_of (sort_key h field)
             (bool_decide (_sort_direction c = -1)) s (data c)
  | None => s = data c
  end.
Proof.
  unfold sorted_data. destruct (_sort_field c) as [field|]; [|by intros [= <-]].
  case_bool_decide; [by intros [= <-]|]. apply list_sort_stable.
Qed.

(** C4, as amended: [to_list] sorts, then skips, then limits, and does not
    read its [length] argument.  For a non-negative skip, a non-negative
    limit and sort keys that can be compared with one another, the call
    returns; when a non-empty sort field was set, the list [s] it works on
    is the stable sort of the data by that field (descending exactly for
    the direction [-1]), a document without the field having the key [0];
    the result is [s] without its first [skip] entries, cut to [limit]
    entries when a non-zero limit was set. *)
Theorem to_list_sorts_skips_limits
    (h : gmap loc doc) (c : cursor) (length : option Z) :
  0 ≤ _skip c →
  (∀ n, _limit c = Some n → 0 ≤ n) →
  (∀ field, _sort_field c = Some field → field ≠ "" →
     comparable (sort_key h field) (data c)) →
  ∃ s,
    match _sort_field c with
    | Some field =>
        if bool_decide (field = "") then s = data c
        else stable_sort_of (sort_key h field)
               (bool_decide (_sort_direction c = -1)) s (data c)
    | None => s = data c
    end
    ∧ (∀ field x, deref h x !! field = None → sort_key h field x = VInt 0)
    ∧ to_list h c length =
        Ok (let rest := drop (Z.to_nat (_skip c)) s in
            match _limit c with
            | Some n => if bool_decide (n = 0) then rest
                        else take (Z.to_nat n) rest
            | None => rest
            end).
Proof.
  intros Hskip Hlimit Hcmp.
  destruct (sorted_data_returns h c Hcmp) as [s Hs]. exists s.
  split_and!.
  - by apply sorted_data_stable.
  - intros field x Hx. unfold sort_key, dict_get. by rewrite Hx.
  - unfold to_list. rewrite Hs. simpl. f_equal.
    destruct (_limit c) as [n|] eqn:Hn; [|by apply py_slice_from].
    case_bool_decide; [by apply py_slice_from|].
    apply py_slice_range; eauto.
Qed.

(** C10: after [limit(0)] the cursor lists what it would list with no limit
    configured, namely everything that is left of the sorted data after
    the skip. *)
Theorem limit_zero_is_no_limit
    (h : gmap loc doc) (c : cursor) (length : option Z) :
  0 ≤ _skip c →
  to_list h (limit 0 c) length
  = to_list h (MkCursor (data c) (_skip c) None (_sort_field c) (_sort_direction c))
      length
  ∧ to_list h (limit 0 c) length
    = (s ← sorted_data h c; Ok (drop (Z.to_nat (_skip c)) s)).
Proof.
  intros Hskip. split; [done|].
  unfold to_list. change (sorted_data h (limit 0 c)) with (sorted_data h c).
  destruct (sorted_data h c) as [s|e]; simpl; [|done].
  by rewrite py_slice_from.
Qed.
End cursor_facts.

(** C4, the claim as written fails: no limit is configured and [to_list(1)]
    is asked for at most one document, yet all three are returned. *)
Lemma to_list_ignores_length :
  MemoryCursor._limit (MemoryCursor.init [1%positive; 2%positive; 3%positive]) = None
  ∧ MemoryCursor.to_list example_heap
      (MemoryCursor.init [1%positive; 2%positive; 3%positive]) (Some 1)
    = Ok [1%positive; 2%positive; 3%positive].
Proof. by vm_compute. Qed.

(** The scenario of the spec: the books by descending price, the first one
    skipped, at most five of the rest. *)
Lemma to_list_sorts_skips_limits_witness :
  ∃ s, stable_sort_of (MemoryCursor.sort_key example_heap "price") true s
         [1%positive; 2%positive; 3%positive]
       ∧ MemoryCursor.to_list example_heap
           (MemoryCursor.limit 5 (MemoryCursor.skip 1 (MemoryCursor.sort "price" (-1)
              (MemoryCursor.init [1%positive; 2%positive; 3%positive]))))
           (Some 5)
         = Ok (take 5 (drop 1 s)).
Proof.
  destruct (to_list_sorts_skips_limits example_heap
              (MemoryCursor.limit 5 (MemoryCursor.skip 1 (MemoryCursor.sort "price" (-1)
                 (MemoryCursor.init [1%positive; 2%positive; 3%positive]))))
              (Some 5)) as (s & Hs & _ & Hl).
  - simpl. lia.
  - simpl. intros n [= <-]. lia.
  - simpl. intros field [= <-] _ x y Hx Hy.
    repeat (apply elem_of_cons in Hx as [->|Hx]);
      repeat (apply elem_of_cons in Hy as [->|Hy]);
      try (by apply elem_of_nil in Hx); try (by apply elem_of_nil in Hy);
      vm_compute; eauto.
  - exists s. split; [exact Hs|exact Hl].
Defined.

(** [limit(0)] after [skip(1)] lists the second and the third book. *)
Lemma limit_zero_is_no_limit_witness :
  MemoryCursor.to_list example_heap
    (MemoryCursor.limit 0 (MemoryCursor.skip 1
       (MemoryCursor.init [1%positive; 2%positive; 3%positive]))) None
  = Ok [2%positive; 3%positive].
Proof.
  refine (proj2 (limit_zero_is_no_limit example_heap
                   (MemoryCursor.skip 1
                      (MemoryCursor.init [1%positive; 2%positive; 3%positive]))
                   None _)).
  simpl. lia.
Defined.

(** ** The collection *)

Lemma deref_insert_eq (h : gmap loc doc) (l : loc) (d : doc) :
  deref (<[l := d]> h) l = d.
Proof. unfold deref. by rewrite lookup_total_insert_eq. Qed.

Lemma deref_insert_ne (h : gmap loc doc) (l l' : loc) (d : doc) :
  l ≠ l' → deref (<[l := d]> h) l' = deref h l'.
Proof. intros. unfold deref. by rewrite lookup_total_insert_ne. Qed.

Lemma fmap_deref_insert_notin (h : gmap loc doc) (l : loc) (d : doc) (ls : list loc) :
  l ∉ ls → deref (<[l := d]> h) <$> ls = deref h <$> ls.
Proof.
  intros Hl. apply Forall_fmap_ext_1, Forall_forall. intros l' Hl'.
  apply deref_insert_ne. by intros ->.
Qed.

Lemma fmap_deref_insert_NoDup (h : gmap loc doc) (l : loc) (d : doc)
    (ls : list loc) (i : nat) :
  NoDup ls → ls !! i = Some l →
  deref (<[l := d]> h) <$> ls = <[i := d]> (deref h <$> ls).
Proof.
  intros Hnd Hi. apply list_eq. intros j.
  destruct (decide (i = j)) as [<-|Hne].
  - rewrite list_lookup_insert_eq by (rewrite length_fmap; by eapply lookup_lt_Some).
    rewrite list_lookup_fmap, Hi. simpl. by rewrite deref_insert_eq.
  - rewrite list_lookup_insert_ne by done. rewrite !list_lookup_fmap.
    destruct (ls !! j) as [l'|] eqn:Hj; simpl; [|done].
    f_equal. apply deref_insert_ne. intros ->.
    by destruct (Hne (NoDup_lookup _ _ _ _ Hnd Hi Hj)).
Qed.

Section collection_facts.
Context {rt : PyRuntime}.
Import MemoryCollection.

Lemma first_match_found (h : gmap loc doc) (q : query) (items : list loc) i0 i l :
  items !! i = Some l →
  _match_query (deref h l) q = Ok true →
  (∀ j l', (j < i)%nat → items !! j = Some l' →
     _match_query (deref h l') q = Ok false) →
  first_match h q i0 items = Ok (Some ((i0 + i)%nat, l)).
Proof.
  revert i0 i. induction items as [|x items IH]; intros i0 [|i]; simpl; try done.
  - intros [= ->] -> _. simpl. by rewrite Nat.add_0_r.
  - intros Hi Hl Hbefore. rewrite (Hbefore 0%nat x) by (done || lia). simpl.
    rewrite (IH (S i0) i); [do 3 f_equal; lia|done..|].
    intros j l' Hj Hl'. apply (Hbefore (S j)); [lia|done].
Qed.

Lemma first_match_none (h : gmap loc doc) (q : query) (items : list loc) i0 :
  (∀ l, l ∈ items → _match_query (deref h l) q = Ok false) →
  first_match h q i0 items = Ok None.
Proof.
  revert i0. induction items as [|x items IH]; intros i0 Hno; simpl; [done|].
  rewrite (Hno x) by left. simpl. apply IH. intros l Hl. apply Hno. by right.
Qed.

Lemma first_match_stored (h : gmap loc doc) (q : query) (items : list loc) i0 i l :
  first_match h q i0 items = Ok (Some (i, l)) →
  ∃ k, i = (i0 + k)%nat ∧ items !! k = Some l.
Proof.
  revert i0. induction items as [|x items IH]; intros i0; simpl; [done|].
  intros (b & _ & Hrest)%bind_Ok. destruct b.
  - injection Hrest as <- <-. exists 0%nat. split; [lia|done].
  - apply IH in Hrest as (k & -> & Hk). exists (S k). split; [lia|done].
Qed.

Lemma matching_stored (h : gmap loc doc) (q : query) (items r : list loc) :
  matching h q items = Ok r → r ⊆ items.
Proof.
  revert r. induction items as [|x items IH]; intros r; simpl.
  - by intros [= <-].
  - intros (b & _ & (r' & Hr' & [= <-])%bind_Ok)%bind_Ok.
    specialize (IH _ Hr'). intros l Hl. destruct b.
    + apply elem_of_cons in Hl as [->|Hl]; [left|right; by apply IH].
    + right. by apply IH.
Qed.

Lemma matching_empty_filter (h : gmap loc doc) (items : list loc) :
  matching h [] items = Ok items.
Proof. induction items as [|x items IH]; simpl; [done|]. by rewrite IH. Qed.

(** C8: [update_one] with a [$set] document.  When the document at index
    [i] is the first one in storage order that the filter accepts, the
    matcher having answered [False], without an exception, on each document
    stored before it, the call reports one matched and one modified
    document, the storage list is the same, the named fields of that
    document hold the given values, its other fields and every other object
    are as before; the stored documents being distinct objects, the contents
    change at index [i] only.  When the matcher answers [False], without an
    exception, on every stored document the call reports zero and the state
    is the same. *)
Theorem update_one_sets_first_match (st : state) (q : query) (fields : doc) :
  (∀ i l,
     _memory_storage st !! i = Some l →
     _match_query (deref (heap st) l) q = Ok true →
     (∀ j l', (j < i)%nat → _memory_storage st !! j = Some l' →
        _match_query (deref (heap st) l') q = Ok false) →
     ∃ st',
       update_one q (UpdateDoc (Some fields)) st = Ok (MkUpdateResult 1 1, st')
       ∧ _memory_storage st' = _memory_storage st
       ∧ (∀ k v, fields !! k = Some v → deref (heap st') l !! k = Some v)
       ∧ (∀ k, fields !! k = None →
            deref (heap st') l !! k = deref (heap st) l !! k)
       ∧ (∀ l', l' ≠ l → heap st' !! l' = heap st !! l')
       ∧ (NoDup (_memory_storage st) →
            contents st' = <[i := fields ∪ deref (heap st) l]> (contents st)))
  ∧ ((∀ l, l ∈ _memory_storage st →
        _match_query (deref (heap st) l) q = Ok false) →
     update_one q (UpdateDoc (Some fields)) st = Ok (MkUpdateResult 0 0, st)).
Proof.
  split.
  - intros i l Hi Hl Hbefore. eexists. unfold update_one.
    rewrite (first_match_found _ _ _ 0 i l) by done. simpl.
    split_and!; [done|done|..].
    + intros k v Hk. simpl. rewrite deref_insert_eq.
      by apply lookup_union_Some_l.
    + intros k Hk. simpl. rewrite deref_insert_eq. by apply lookup_union_r.
    + intros l' Hne. simpl. by apply lookup_insert_ne.
    + intros Hnd. unfold contents. simpl. by apply fmap_deref_insert_NoDup.
  - intros Hno. unfold update_one. by rewrite first_match_none.
Qed.

(** C9: [delete_many] with an empty filter, or with none, reports the
    number of documents the store held, which is what [count_documents]
    answered before, and leaves the store empty, where [count_documents]
    with an empty filter, or with none, is 0. *)
Theorem delete_many_empty_filter_clears (st : state) :
  let total := Z.of_nat (length (_memory_storage st)) in
  let cleared := State (heap st) [] (_use_memory_storage st) in
  count_documents (Some []) st = Ok total
  ∧ count_documents None st = Ok total
  ∧ delete_many (Some []) st = (Ok total, cleared)
  ∧ delete_many None st = (Ok total, cleared)
  ∧ _memory_storage cleared = []
  ∧ count_documents (Some []) cleared = Ok 0
  ∧ count_documents None cleared = Ok 0.
Proof.
  split_and!; try done.
  unfold count_documents. by rewrite matching_empty_filter.
Qed.

Lemma insert_one_well_formed (now : Z) (document : loc) (st : state) :
  well_formed st → well_formed (snd (insert_one now document st)).
Proof.
  intros [Hnd Hlive]. unfold insert_one, alloc. cbv zeta. simpl.
  set (h1 := <[document := _]> (heap st)).
  assert (fresh (dom h1) ∉ dom h1) as Hfresh by apply is_fresh.
  assert (∀ l, l ∈ _memory_storage st → l ∈ dom h1) as Hlive1.
  { intros l Hl. unfold h1. rewrite dom_insert_L.
    apply elem_of_union_r. by apply Hlive. }
  split; simpl.
  - apply NoDup_app. split_and!; [done| |apply NoDup_singleton].
    intros l Hl Heq%list_elem_of_singleton. subst l. by apply Hfresh, Hlive1.
  - intros l [Hl|Heq%list_elem_of_singleton]%elem_of_app; rewrite dom_insert_L.
    + apply elem_of_union_r. by apply Hlive1.
    + subst l. apply elem_of_union_l. by apply elem_of_singleton.
Qed.

Lemma update_one_well_formed (q : query) (update : update_doc) (st st' : state) r :
  well_formed st → update_one q update st = Ok (r, st') → well_formed st'.
Proof.
  intros [Hnd Hlive]. unfold update_one.
  intros ([[i l]|] & _ & Hret)%bind_Ok; injection Hret as <- <-; [|done].
  split; [done|]. simpl. intros l' Hl'.
  destruct (upd_set update); [|by apply Hlive].
  rewrite dom_insert_L. apply elem_of_union_r. by apply Hlive.
Qed.

(** C6, as amended: [insert_one] never fails and always assigns a new
    identifier, whether or not the document carries one: the identifier is
    the non-empty string made of the storage length and the clock reading,
    it is written into the caller's dictionary and returned, and a copy of
    that dictionary, a new object, is appended to the storage list; no other
    object changes, and a later write to the caller's dictionary does not
    reach the appended copy.  When the caller's dictionary is not itself a
    stored one, the contents are the old contents followed by the copy. *)
Theorem insert_one_assigns_new_identifier (now : Z) (document : loc) (st : state) :
  (∀ l, l ∈ _memory_storage st → l ∈ dom (heap st)) →
  ∃ s st' copy,
    insert_one now document st = (VStr s, st')
    ∧ s = "mem_" +:+ pretty (Z.of_nat (length (_memory_storage st)))
            +:+ "_" +:+ pretty now
    ∧ s ≠ ""
    ∧ _memory_storage st' = (_memory_storage st ++ [copy])%list
    ∧ (copy ∉ _memory_storage st) ∧ (copy ≠ document)
    ∧ deref (heap st') document = <["_id" := VStr s]> (deref (heap st) document)
    ∧ deref (heap st') copy = <["_id" := VStr s]> (deref (heap st) document)
    ∧ (∀ l, l ≠ document → l ≠ copy → heap st' !! l = heap st !! l)
    ∧ (∀ k v, deref (heap (setitem document k v st')) copy
              = <["_id" := VStr s]> (deref (heap st) document))
    ∧ (document ∉ _memory_storage st →
         contents st'
         = (contents st ++ [<["_id" := VStr s]> (deref (heap st) document)])%list).
Proof.
  intros Hlive.
  set (s := "mem_" +:+ pretty (Z.of_nat (length (_memory_storage st)))
              +:+ "_" +:+ pretty now).
  set (d := <["_id" := VStr s]> (deref (heap st) document)).
  set (h1 := <[document := d]> (heap st)).
  set (copy := fresh (dom h1)).
  assert (copy ∉ dom h1) as Hfresh by apply is_fresh.
  assert (copy ≠ document) as Hne.
  { intros Heq. apply Hfresh. rewrite Heq. unfold h1. rewrite dom_insert_L.
    apply elem_of_union_l. by apply elem_of_singleton. }
  assert (copy ∉ _memory_storage st) as Hnew.
  { intros Hin. apply Hfresh. unfold h1. rewrite dom_insert_L.
    apply elem_of_union_r. by apply Hlive. }
  exists s, (State (<[copy := d]> h1) (_memory_storage st ++ [copy])%list
               (_use_memory_storage st)), copy.
  split_and!; try done.
  - unfold insert_one, new_id, alloc. cbv zeta. fold s. fold d. fold h1.
    fold copy. by replace (deref h1 document) with d
      by (symmetry; apply deref_insert_eq).
  - simpl. rewrite deref_insert_ne by done. apply deref_insert_eq.
  - simpl. apply deref_insert_eq.
  - intros l Hl1 Hl2. simpl. unfold h1.
    by rewrite !lookup_insert_ne.
  - intros k v. unfold setitem. simpl.
    rewrite deref_insert_ne by done. apply deref_insert_eq.
  - intros Hcaller. unfold contents. simpl. rewrite fmap_app. simpl.
    rewrite deref_insert_eq. f_equal.
    rewrite fmap_deref_insert_notin by done.
    by apply fmap_deref_insert_notin.
Qed.

(** C5, as amended: reads hand out the stored objects themselves.  What
    [find_one] returns, and every element of what [to_list] returns for a
    cursor over the result of [find], however the cursor was configured,
    is an entry of the storage list, so that a write through it shows in
    the stored contents at that entry. *)
Theorem reads_return_stored_objects (st : state) (q : query) :
  let aliases l :=
    ∃ i, _memory_storage st !! i = Some l
         ∧ ∀ k v, contents (setitem l k v st) !! i
                  = Some (<[k := v]> (deref (heap st) l)) in
  (∀ l, find_one q st = Ok (Some l) → aliases l)
  ∧ (∀ oq c c' length r,
       find oq st = Ok c →
       MemoryCursor.data c' = MemoryCursor.data c →
       MemoryCursor.to_list (heap st) c' length = Ok r →
       ∀ l, l ∈ r → aliases l).
Proof.
  intros aliases.
  assert (∀ l, l ∈ _memory_storage st → aliases l) as Hstored.
  { intros l (i & Hi)%list_elem_of_lookup. exists i. split; [done|].
    intros k v. unfold contents, setitem. simpl.
    rewrite list_lookup_fmap, Hi. simpl. by rewrite deref_insert_eq. }
  split.
  - intros l Hfound. apply Hstored. unfold find_one in Hfound.
    apply bind_Ok in Hfound as ([[i l']|] & Hm & Hret); [|done].
    injection Hret as ->.
    apply first_match_stored in Hm as (k & _ & Hk).
    apply list_elem_of_lookup. eauto.
  - intros oq c c' len r Hfind Hdata Hlist l Hl. apply Hstored.
    unfold find in Hfind. simpl in Hfind.
    apply bind_Ok in Hfind as (results & Hres & [= <-]).
    apply (matching_stored _ _ _ _ Hres). simpl in Hdata. rewrite <- Hdata.
    unfold MemoryCursor.to_list in Hlist.
    apply bind_Ok in Hlist as (s & Hs & [= <-]).
    assert (s ≡ₚ MemoryCursor.data c') as Hperm.
    { apply sorted_data_stable in Hs.
      destruct (MemoryCursor._sort_field c'); [|by subst].
      case_bool_decide; [by subst|]. apply Hs. }
    rewrite <- Hperm. unfold py_slice in Hl.
    by apply subseteq_take, subseteq_drop in Hl.
Qed.
End collection_facts.

(** C5, the claim as written fails: [find_one] and [to_list] hand out the
    first stored book itself, and setting its price through that reference
    changes the price the store holds. *)
Lemma reads_alias_the_store :
  MemoryCollection.find_one (rt := example_runtime)
    [("title", QLit (VStr "A"))] example_store = Ok (Some 1%positive)
  ∧ (c ← MemoryCollection.find (rt := example_runtime) None example_store;
     MemoryCursor.to_list (heap example_store) c None)
    = Ok [1%positive; 2%positive; 3%positive]
  ∧ contents example_store !! 0%nat = Some (book "A" 10 3)
  ∧ contents (setitem 1%positive "price" (VInt 0) example_store) !! 0%nat
    = Some (book "A" 0 3).
Proof. by vm_compute. Qed.

(** C6, the claim as written fails: the dictionary comes with the identifier
    [abc], and both it and the stored copy end up with a new one. *)
Lemma insert_one_overwrites_identifier :
  deref (heap store_and_caller) 4%positive !! "_id" = Some (VStr "abc")
  ∧ fst (MemoryCollection.insert_one 1700000000 4%positive store_and_caller)
    = VStr "mem_3_1700000000"
  ∧ (λ d : doc, d !! "_id")
      <$> contents (snd (MemoryCollection.insert_one 1700000000 4%positive
                           store_and_caller))
    = [None; None; None; Some (VStr "mem_3_1700000000")].
Proof. by vm_compute. Qed.

(** Inserting the caller's dictionary into the store of three books. *)
Lemma insert_one_assigns_new_identifier_witness :
  ∃ s st' copy,
    MemoryCollection.insert_one 1700000000 4%positive store_and_caller = (VStr s, st')
    ∧ s = "mem_3_1700000000"
    ∧ s ≠ ""
    ∧ _memory_storage st' = [1%positive; 2%positive; 3%positive; copy]
    ∧ (copy ∉ _memory_storage store_and_caller) ∧ (copy ≠ 4%positive)
    ∧ deref (heap st') 4%positive
      = <["_id" := VStr s]> (deref (heap store_and_caller) 4%positive)
    ∧ deref (heap st') copy
      = <["_id" := VStr s]> (deref (heap store_and_caller) 4%positive)
    ∧ (∀ l, l ≠ 4%positive → l ≠ copy → heap st' !! l = heap store_and_caller !! l)
    ∧ (∀ k v, deref (heap (setitem 4%positive k v st')) copy
              = <["_id" := VStr s]> (deref (heap store_and_caller) 4%positive))
    ∧ (4%positive ∉ _memory_storage store_and_caller →
         contents st'
         = (contents store_and_caller
              ++ [<["_id" := VStr s]> (deref (heap store_and_caller) 4%positive)])%list).
Proof.
  apply (insert_one_assigns_new_identifier 1700000000 4%positive store_and_caller).
  intros l Hl. vm_compute in Hl.
  repeat (apply elem_of_cons in Hl as [->|Hl]); [..|by apply elem_of_nil in Hl];
    apply elem_of_dom; vm_compute; eauto.
Defined.

(** The book found by its title is the second entry of the storage list. *)
Lemma reads_return_stored_objects_witness :
  ∃ i, _memory_storage example_store !! i = Some 2%positive
       ∧ ∀ k v, contents (setitem 2%positive k v example_store) !! i
                = Some (<[k := v]> (deref (heap example_store) 2%positive)).
Proof.
  apply (proj1 (reads_return_stored_objects (rt := example_runtime)
                  example_store [("title", QLit (VStr "B"))])).
  reflexivity.
Defined.

(** C8, the claim as written fails: the third stored book costs 30 and
    matches the filter [price >= 20], but the scan reaches the second book
    first, whose price is a string, and the [TypeError] of the comparison
    leaves [update_one] with no field written and nothing reported.  With
    [price >= 100], which no book matches, the call raises as well in place
    of reporting zero. *)
Lemma update_one_raises_before_the_match :
  (λ l, MemoryCollection._match_query (rt := example_runtime)
          (deref (heap mixed_store) l) (price_at_least 20))
    <$> _memory_storage mixed_store
  = [Ok false; Raise TypeError; Ok true]
  ∧ MemoryCollection.update_one (rt := example_runtime) (price_at_least 20)
      (UpdateDoc (Some (<["price" := VInt 9]> ∅))) mixed_store
    = Raise TypeError
  ∧ (λ l, MemoryCollection._match_query (rt := example_runtime)
            (deref (heap mixed_store) l) (price_at_least 100))
      <$> _memory_storage mixed_store
    = [Ok false; Raise TypeError; Ok false]
  ∧ MemoryCollection.update_one (rt := example_runtime) (price_at_least 100)
      (UpdateDoc (Some (<["price" := VInt 9]> ∅))) mixed_store
    = Raise TypeError.
Proof. by vm_compute. Qed.

(** Setting the price of the first five-star book changes the second stored
    document only; no book has four stars. *)
Lemma update_one_sets_first_match_witness :
  (∃ st',
     MemoryCollection.update_one (rt := example_runtime)
       [("star_rating", QLit (VInt 5))]
       (UpdateDoc (Some (<["price" := VInt 9]> ∅))) example_store
     = Ok (MkUpdateResult 1 1, st')
     ∧ contents st' = [book "A" 10 3; book "B" 9 5; book "C" 30 5])
  ∧ MemoryCollection.update_one (rt := example_runtime)
      [("star_rating", QLit (VInt 4))]
      (UpdateDoc (Some (<["price" := VInt 9]> ∅))) example_store
    = Ok (MkUpdateResult 0 0, example_store).
Proof.
  split.
  - destruct (proj1 (update_one_sets_first_match (rt := example_runtime)
                       example_store [("star_rating", QLit (VInt 5))]
                       (<["price" := VInt 9]> ∅)) 1%nat 2%positive)
      as (st' & Hcall & _ & _ & _ & _ & Hcontents).
    + reflexivity.
    + reflexivity.
    + intros [|j] l' Hj; [|lia]. intros [= <-]. reflexivity.
    + exists st'. split; [exact Hcall|].
      rewrite Hcontents; [reflexivity|].
      vm_compute. repeat constructor; intros Hin;
        repeat (apply elem_of_cons in Hin as [Hin|Hin]; [discriminate|]);
        by apply elem_of_nil in Hin.
  - apply (proj2 (update_one_sets_first_match (rt := example_runtime)
                    example_store [("star_rating", QLit (VInt 4))]
                    (<["price" := VInt 9]> ∅))).
    intros l Hl. vm_compute in Hl.
    repeat (apply elem_of_cons in Hl as [->|Hl]); [..|by apply elem_of_nil in Hl];
      reflexivity.
Defined.

(** ** The aggregation cursor *)

(** The loop returns from the first stage that has a [$group] entry: the
    stages after it, and that stage's own [$sort] entry, are never read. *)
Lemma run_stops_at_first_group {rt : PyRuntime}
    (items : list doc) (group : group_spec) srt (rest : list stage) :
  MemoryAggregationCursor.run items (MkStage (Some group) srt :: rest)
  = MemoryAggregationCursor.run items [MkStage (Some group) None].
Proof. done. Qed.

(** C2, the code against the claim: on the three books, the pipeline that
    groups by rating and then sorts the groups by descending key returns the
    groups in first-seen order, rating 3 before rating 5, which is what the
    group stage alone returns; the sort stage is not applied. *)
Theorem sort_stage_after_group_is_not_applied :
  MemoryCollection.aggregate (rt := example_runtime) rating_pipeline example_store
  = Ok [rating_group 3 1; rating_group 5 2]
  ∧ MemoryCollection.aggregate (rt := example_runtime) (take 1 rating_pipeline)
      example_store
    = Ok [rating_group 3 1; rating_group 5 2]
  ∧ py_lt (VInt 3) (VInt 5) = Ok true.
Proof. by vm_compute. Qed.

(** ** The connection lifecycle *)

(** A missing snapshot file leaves the fallback store empty and raises
    nothing. *)
Lemma missing_snapshot_starts_empty (e : exn) (st : state) :
  connect_to_mongo (Raise e) (Raise FileNotFoundError) st
  = (Ok (), State (heap st) [] true).
Proof. done. Qed.

Lemma alloc_all_fresh (ds : list doc) (h h' : gmap loc doc) (ls : list loc) :
  alloc_all ds h = (ls, h') →
  NoDup ls ∧ dom h ⊆ dom h' ∧ ∀ l, l ∈ ls → (l ∉ dom h) ∧ (l ∈ dom h').
Proof.
  revert h h' ls. induction ds as [|d ds IH]; intros h h' ls; simpl.
  - intros [= <- <-]. split_and!; [constructor|done|by intros ? ?%elem_of_nil].
  - destruct (alloc_all ds (<[fresh (dom h) := d]> h)) as [ls' h2] eqn:Hrest.
    intros [= <- <-]. apply IH in Hrest as (Hnd & Hsub & Hnew).
    rewrite dom_insert_L in Hsub, Hnew.
    pose proof (is_fresh (dom h)) as Hfresh.
    split_and!.
    + constructor; [|done]. intros Hin. apply Hnew in Hin as [Hin _].
      apply Hin, elem_of_union_l. by apply elem_of_singleton.
    + intros l Hl. by apply Hsub, elem_of_union_r.
    + intros l [->|Hl]%elem_of_cons.
      * split; [done|]. apply Hsub, elem_of_union_l. by apply elem_of_singleton.
      * apply Hnew in Hl as [Hl1 Hl2]. split; [|done].
        intros Hl. by apply Hl1, elem_of_union_r.
Qed.

Lemma extend_well_formed (items : list doc) (st : state) :
  well_formed st → well_formed (extend items st).
Proof.
  intros [Hnd Hlive]. unfold extend.
  destruct (alloc_all items (heap st)) as [ls h] eqn:Hall.
  apply alloc_all_fresh in Hall as (Hnd' & Hsub & Hnew).
  split; simpl.
  - apply NoDup_app. split_and!; [done| |done].
    intros l Hl Hl'. apply Hnew in Hl' as [Hl' _]. by apply Hl', Hlive.
  - intros l [Hl|Hl]%elem_of_app; [by apply Hsub, Hlive|by apply Hnew].
Qed.

(** The fallback store is well formed after a connection attempt, whatever
    the handshake and the snapshot file did. *)
Lemma connect_to_mongo_well_formed (handshake : result ()) (file : result json)
    (st : state) :
  well_formed st → well_formed (snd (connect_to_mongo handshake file st)).
Proof.
  intros Hwf. unfold connect_to_mongo, _load_memory_data.
  destruct handshake; [done|].
  destruct file as [[[books|]|items|]|[]]; simpl;
    try done; try (by apply extend_well_formed).
  split; [constructor|by intros ? ?%elem_of_nil].
Qed.

(** C3, the code against the claim: when the handshake fails and the
    snapshot file does not parse, the [JSONDecodeError] of [json.load]
    propagates out of [connect_to_mongo]; only [FileNotFoundError] is
    handled. *)
Theorem corrupt_snapshot_propagates (e : exn) (st : state) :
  connect_to_mongo (Raise e) (Raise JSONDecodeError) st
  = (Raise JSONDecodeError, State (heap st) (_memory_storage st) true).
Proof. done. Qed.

(** ** The scenario of the spec, evaluated *)

Example fallback_loads_snapshot :
  contents (snd (connect_to_mongo (Raise ConnectionFailure)
                   (Ok (JDict (Some [book "A" 10 3; book "B" 50 5])))
                   (State ∅ [] false)))
  = [book "A" 10 3; book "B" 50 5].
Proof. by vm_compute. Qed.

Example books_with_five_stars_by_price :
  (c ← MemoryCollection.find (rt := example_runtime)
         (Some [("star_rating", QOps (<["$gte" := VInt 5]> ∅))]) example_store;
   MemoryCursor.to_list (heap example_store)
     (MemoryCursor.sort "price" (-1) c) None)
  = Ok [2%positive; 3%positive].
Proof. by vm_compute. Qed.

Example books_by_price_skip_one :
  MemoryCursor.to_list example_heap
    (MemoryCursor.limit 5 (MemoryCursor.skip 1 (MemoryCursor.sort "price" (-1)
       (MemoryCursor.init [1%positive; 2%positive; 3%positive])))) (Some 5)
  = Ok [3%positive; 1%positive].
Proof. by vm_compute. Qed.

Example sort_by_a_field_one_book_lacks :
  MemoryCursor.to_list (<[4%positive := (∅ : doc)]> example_heap)
    (MemoryCursor.sort "title" 1
       (MemoryCursor.init [1%positive; 2%positive; 4%positive])) None
  = Raise TypeError.
Proof. by vm_compute. Qed.

Example sort_on_mixed_keys_raises :
  list_sort (λ v : value, v) false [VInt 1; VStr "a"] = Raise TypeError.
Proof. by vm_compute. Qed.

Example delete_all_then_count :
  MemoryCollection.count_documents (rt := example_runtime) (Some [])
    (snd (MemoryCollection.delete_many (rt := example_runtime) (Some []) example_store))
  = Ok 0.
Proof. by vm_compute. Qed.

Example price_range :
  MemoryCollection.aggregate (rt := example_runtime)
    [MkStage (Some (MkGroup (Some VNone) {["min_price"; "max_price"]})) None]
    example_store
  = Ok [<["min_price" := VInt 10]> (<["max_price" := VInt 50]> ∅)].
Proof. by vm_compute. Qed.

(** * Further properties of the store *)

(** ** Filters as conjunctions *)

Section filter_facts.
Context {rt : PyRuntime}.
Import MemoryCollection.

(** X1: the items of a filter are tested from left to right and the first
    one that fails, or raises, decides: the verdict on two filters put
    together is the verdict on the first and, when that is [True], the
    verdict on the second.  So the joint filter accepts exactly what both
    accept. *)
Theorem match_query_app (item : doc) (q1 q2 : query) :
  _match_query item (q1 ++ q2)%list
  = (b ← _match_query item q1; if b : bool then _match_query item q2 else Ok false)
  ∧ (_match_query item (q1 ++ q2)%list = Ok true
     ↔ _match_query item q1 = Ok true ∧ _match_query item q2 = Ok true).
Proof.
  assert (_match_query item (q1 ++ q2)%list
          = (b ← _match_query item q1;
             if b : bool then _match_query item q2 else Ok false)) as Heq.
  { induction q1 as [|[k v] q1 IH]; simpl; [done|].
    destruct (match_item item k v) as [[]|]; simpl; [|done..]. apply IH. }
  split; [done|]. rewrite Heq.
  destruct (_match_query item q1) as [[]|]; simpl;
    (split; [by intros ?|]); by intros [? ?].
Qed.

(** X2: a document the filter accepts has every field the filter names,
    and holds, under each field the filter gives a literal for, a value
    equal to that literal. *)
Theorem accepted_document_has_the_fields (item : doc) (q : query) :
  _match_query item q = Ok true →
  (∀ key value, (key, value) ∈ q → is_Some (item !! key))
  ∧ (∀ key v, (key, QLit v) ∈ q →
       ∃ x, item !! key = Some x ∧ py_eq x v = true).
Proof.
  intros Hq. split.
  - intros key value Hin.
    pose proof (_match_query_true_item _ _ _ _ Hin Hq) as Hitem.
    unfold match_item in Hitem. by destruct (item !! key).
  - intros key v Hin.
    pose proof (_match_query_true_item _ _ _ _ Hin Hq) as Hitem.
    unfold match_item in Hitem. destruct (item !! key) as [x|]; [|done].
    injection Hitem as Hx. eauto.
Qed.
End filter_facts.

(** The first book passes the filter on its rating and its title. *)
Lemma accepted_document_has_the_fields_witness :
  (∀ key value,
     (key, value) ∈ [("star_rating", QLit (VInt 3)); ("title", QLit (VStr "A"))] →
     is_Some (book "A" 10 3 !! key))
  ∧ (∀ key v,
       (key, QLit v) ∈ [("star_rating", QLit (VInt 3)); ("title", QLit (VStr "A"))] →
       ∃ x, book "A" 10 3 !! key = Some x ∧ py_eq x v = true).
Proof.
  apply (accepted_document_has_the_fields (rt := example_runtime)
           (book "A" 10 3)
           [("star_rating", QLit (VInt 3)); ("title", QLit (VStr "A"))]).
  reflexivity.
Defined.

(** ** Selection: [find], [find_one], [count_documents] and the deletes *)

Section selection_facts.
Context {rt : PyRuntime}.
Import MemoryCollection.

Lemma accepts_true (h : gmap loc doc) (q : query) (l : loc) :
  accepts h q l = true ↔ _match_query (deref h l) q = Ok true.
Proof. unfold accepts. by destruct (_match_query (deref h l) q) as [[]|]. Qed.

Lemma matching_filter (h : gmap loc doc) (q : query) (items r : list loc) :
  matching h q items = Ok r → r = filter (λ l, accepts h q l) items.
Proof.
  revert r. induction items as [|x items IH]; intros r; simpl.
  - by intros [= <-].
  - intros (b & Hb & (r' & Hr' & [= <-])%bind_Ok)%bind_Ok.
    rewrite (IH _ Hr'). destruct b.
    + rewrite filter_cons_True; [done|]. by apply Is_true_true, accepts_true.
    + rewrite filter_cons_False; [done|].
      intros Hacc%Is_true_true%accepts_true. by rewrite Hb in Hacc.
Qed.

Lemma matching_answers (h : gmap loc doc) (q : query) (items r : list loc) :
  matching h q items = Ok r → answers h q items.
Proof.
  revert r. induction items as [|x items IH]; intros r; simpl.
  - by intros _ l ?%elem_of_nil.
  - intros (b & Hb & (r' & Hr' & _)%bind_Ok)%bind_Ok l [->|Hl]%elem_of_cons; eauto.
    by eapply IH.
Qed.

Lemma matching_returns (h : gmap loc doc) (q : query) (items : list loc) :
  answers h q items → ∃ r, matching h q items = Ok r.
Proof.
  induction items as [|x items IH]; intros Hans; simpl; [eauto|].
  destruct (Hans x) as [b ->]; [left|]. simpl.
  destruct IH as [r ->]; [|simpl; eauto].
  intros l Hl. apply Hans. by right.
Qed.

Lemma first_match_split (h : gmap loc doc) (q : query) (items : list loc) i0 :
  match first_match h q i0 items with
  | Ok (Some (i, l)) =>
      ∃ pre post, items = (pre ++ l :: post)%list ∧ i = (i0 + length pre)%nat
                  ∧ _match_query (deref h l) q = Ok true
                  ∧ Forall (λ x, _match_query (deref h x) q = Ok false) pre
  | Ok None => Forall (λ x, _match_query (deref h x) q = Ok false) items
  | Raise e =>
      ∃ pre l post, items = (pre ++ l :: post)%list
                    ∧ _match_query (deref h l) q = Raise e
                    ∧ Forall (λ x, _match_query (deref h x) q = Ok false) pre
  end.
Proof.
  revert i0. induction items as [|x items IH]; intros i0; simpl; [constructor|].
  destruct (_match_query (deref h x) q) as [[]|e] eqn:Hx; simpl.
  - exists [], items. split_and!; try done; simpl; lia.
  - specialize (IH (S i0)).
    destruct (first_match h q (S i0) items) as [[[i l]|]|e].
    + destruct IH as (pre & post & -> & -> & Hl & Hpre).
      exists (x :: pre), post. split_and!; try done; [simpl; lia|by constructor].
    + by constructor.
    + destruct IH as (pre & l & post & -> & Hl & Hpre).
      exists (x :: pre), l, post. split_and!; try done. by constructor.
  - exists [], x, items. by split_and!.
Qed.

Lemma filter_rejected (h : gmap loc doc) (q : query) (items : list loc) :
  Forall (λ x, _match_query (deref h x) q = Ok false) items →
  filter (λ l, accepts h q l) items = [].
Proof.
  induction 1 as [|x items Hx _ IH]; [done|].
  rewrite filter_cons_False; [done|]. unfold accepts. rewrite Hx. by intros ?.
Qed.

(** X3: [find] selects exactly the stored documents its filter accepts, in
    storage order, in a cursor with no sort, skip or limit; an absent filter
    is the empty one and selects them all.  It returns whenever the matcher
    answers on every stored document. *)
Theorem find_selects_the_accepted (st : state) (oq : option query) :
  (∀ c, find oq st = Ok c →
     c = MemoryCursor.init
           (filter (λ l, accepts (heap st) (default [] oq) l) (_memory_storage st)))
  ∧ (answers (heap st) (default [] oq) (_memory_storage st) →
     ∃ c, find oq st = Ok c)
  ∧ find None st = Ok (MemoryCursor.init (_memory_storage st)).
Proof.
  split_and!.
  - intros c. unfold find. intros (r & Hr & [= <-])%bind_Ok.
    by rewrite (matching_filter _ _ _ _ Hr).
  - intros Hans. unfold find.
    destruct (matching_returns _ _ _ Hans) as [r ->]. simpl. eauto.
  - unfold find. simpl. by rewrite matching_empty_filter.
Qed.

(** X4: [count_documents] is the number of documents [find] selects with
    the same filter, which [to_list] on the unconfigured cursor lists in
    full; it never exceeds the size of the store. *)
Theorem count_documents_counts_find (st : state) (oq : option query)
    (c : MemoryCursor.cursor) (length_arg : option Z) :
  find oq st = Ok c →
  MemoryCursor.to_list (heap st) c length_arg = Ok (MemoryCursor.data c)
  ∧ count_documents oq st = Ok (Z.of_nat (length (MemoryCursor.data c)))
  ∧ (length (MemoryCursor.data c) ≤ length (_memory_storage st))%nat.
Proof.
  unfold find. intros (r & Hr & [= <-])%bind_Ok. simpl. split_and!.
  - unfold MemoryCursor.to_list. simpl. f_equal.
    rewrite py_slice_from by done. done.
  - destruct oq as [q|]; simpl in *; [by rewrite Hr|].
    rewrite matching_empty_filter in Hr. by injection Hr as <-.
  - rewrite (matching_filter _ _ _ _ Hr). apply length_filter.
Qed.

(** X5: when [find] returns, [find_one] with the same filter returns the
    first document of the selection, or [None] when the selection is
    empty. *)
Theorem find_one_is_the_head_of_find (st : state) (q : query)
    (c : MemoryCursor.cursor) :
  find (Some q) st = Ok c →
  find_one q st = Ok (head (MemoryCursor.data c)).
Proof.
  unfold find. intros (r & Hr & [= <-])%bind_Ok. simpl in *.
  pose proof (matching_answers _ _ _ _ Hr) as Hans.
  apply matching_filter in Hr as ->. unfold find_one.
  pose proof (first_match_split (heap st) q (_memory_storage st) 0) as Hsplit.
  destruct (first_match (heap st) q 0 (_memory_storage st)) as [[[i l]|]|e]; simpl.
  - destruct Hsplit as (pre & post & -> & _ & Hl & Hpre).
    rewrite filter_app, (filter_rejected _ _ _ Hpre), filter_cons_True; [done|].
    by apply Is_true_true, accepts_true.
  - by rewrite (filter_rejected _ _ _ Hsplit).
  - destruct Hsplit as (pre & l & post & Hitems & Hl & Hpre).
    destruct (Hans l) as [b Hb]; [|by rewrite Hb in Hl].
    rewrite Hitems. apply elem_of_app. right. left.
Qed.

Lemma answers_app (h : gmap loc doc) (q : query) (l1 l2 : list loc) :
  answers h q (l1 ++ l2)%list ↔ answers h q l1 ∧ answers h q l2.
Proof.
  unfold answers. split.
  - intros H. split; intros l Hl; apply H, elem_of_app; eauto.
  - intros [H1 H2] l [Hl|Hl]%elem_of_app; eauto.
Qed.

Lemma answers_cons (h : gmap loc doc) (q : query) (x : loc) (items : list loc) :
  answers h q (x :: items)
  ↔ (∃ b, _match_query (deref h x) q = Ok b) ∧ answers h q items.
Proof.
  unfold answers. split.
  - intros H. split; [apply H; left|]. intros l Hl. apply H. by right.
  - intros [Hx H] l [->|Hl]%elem_of_cons; eauto.
Qed.

Lemma count_documents_filter (st : state) (q : query) :
  answers (heap st) q (_memory_storage st) →
  count_documents (Some q) st
  = Ok (Z.of_nat (length (filter (λ l, accepts (heap st) q l) (_memory_storage st)))).
Proof.
  intros Hans. unfold count_documents.
  destruct (matching_returns _ _ _ Hans) as [r Hr]. rewrite Hr. simpl.
  by rewrite (matching_filter _ _ _ _ Hr).
Qed.

(** X6: [delete_one] after [count_documents] answered [n] for the same
    filter.  With [n = 0] nothing is deleted and the state is the same.
    Otherwise exactly the first accepted document leaves the storage list,
    the others keeping their order, the call reports one deletion, and the
    count for the filter is then [n - 1]. *)
Theorem delete_one_removes_the_first_match (st : state) (q : query) (n : Z) :
  count_documents (Some q) st = Ok n →
  (n = 0 → delete_one q st = Ok (0, st))
  ∧ (0 < n →
     ∃ pre l post,
       _memory_storage st = (pre ++ l :: post)%list
       ∧ accepts (heap st) q l = true
       ∧ Forall (λ x, accepts (heap st) q x = false) pre
       ∧ delete_one q st
         = Ok (1, State (heap st) (pre ++ post)%list (_use_memory_storage st))
       ∧ count_documents (Some q)
           (State (heap st) (pre ++ post)%list (_use_memory_storage st))
         = Ok (n - 1)).
Proof.
  unfold count_documents at 1. intros (r & Hr & [= <-])%bind_Ok.
  pose proof (matching_answers _ _ _ _ Hr) as Hans.
  apply matching_filter in Hr as ->. unfold delete_one.
  pose proof (first_match_split (heap st) q (_memory_storage st) 0) as Hsplit.
  destruct (first_match (heap st) q 0 (_memory_storage st)) as [[[i l]|]|e]; simpl.
  - destruct Hsplit as (pre & post & Hitems & -> & Hl & Hpre).
    rewrite Hitems in *. clear Hitems.
    rewrite filter_app, (filter_rejected _ _ _ Hpre), filter_cons_True
      by by apply Is_true_true, accepts_true.
    simpl. split; [lia|]. intros _. exists pre, l, post. split_and!.
    + done.
    + by apply accepts_true.
    + eapply Forall_impl; [exact Hpre|]. intros x Hx. unfold accepts. by rewrite Hx.
    + by rewrite delete_middle.
    + apply answers_app in Hans as [Hans1 Hans2].
      apply answers_cons in Hans2 as [_ Hans2].
      destruct (matching_returns (heap st) q (pre ++ post)%list) as [r Hr];
        [by apply answers_app|].
      unfold count_documents. simpl. rewrite Hr. simpl.
      rewrite (matching_filter _ _ _ _ Hr), filter_app, (filter_rejected _ _ _ Hpre).
      simpl. f_equal. lia.
  - rewrite (filter_rejected _ _ _ Hsplit). simpl. split; [by destruct st|lia].
  - destruct Hsplit as (pre & l & post & Hitems & Hl & Hpre).
    destruct (Hans l) as [b Hb]; [|by rewrite Hb in Hl].
    rewrite Hitems. apply elem_of_app. right. left.
Qed.

Lemma delete_matching_answered (h : gmap loc doc) (q : query) (items : list loc) :
  answers h q items →
  delete_matching h q items
  = (Ok (Z.of_nat (length (filter (λ l, accepts h q l) items))),
     filter (λ l, ¬ accepts h q l) items).
Proof.
  induction items as [|x items IH]; intros Hans; [done|].
  apply answers_cons in Hans as [[b Hb] Hans]. simpl.
  rewrite (IH Hans), Hb. destruct b.
  - rewrite filter_cons_True by by apply Is_true_true, accepts_true.
    rewrite filter_cons_False.
    + simpl. do 2 f_equal. lia.
    + intros Hn. apply Hn. by apply Is_true_true, accepts_true.
  - assert (¬ accepts h q x) as Hn.
    { intros Hacc%Is_true_true%accepts_true. by rewrite Hb in Hacc. }
    by rewrite filter_cons_False, filter_cons_True.
Qed.

Lemma filter_rejected_accepts (h : gmap loc doc) (q : query) (items : list loc) :
  filter (λ l, accepts h q l) (filter (λ l, ¬ accepts h q l) items) = [].
Proof.
  induction items as [|x items IH]; [done|].
  rewrite (filter_cons (λ l, ¬ accepts h q l)). case_decide; [|done].
  by rewrite filter_cons_False.
Qed.

(** X7: [delete_many] with a filter the matcher answers on for every stored
    document removes exactly the accepted documents, keeps the others in
    their order, and reports the number removed; that number and the number
    kept add up to the former size, and the count for the filter is then 0. *)
Theorem delete_many_removes_the_accepted (st : state) (q : query) :
  answers (heap st) q (_memory_storage st) →
  let removed := filter (λ l, accepts (heap st) q l) (_memory_storage st) in
  let kept := filter (λ l, ¬ accepts (heap st) q l) (_memory_storage st) in
  let st' := State (heap st) kept (_use_memory_storage st) in
  delete_many (Some q) st = (Ok (Z.of_nat (length removed)), st')
  ∧ (length removed + length kept = length (_memory_storage st))%nat
  ∧ count_documents (Some q) st' = Ok 0.
Proof.
  intros Hans removed kept st'. split_and!.
  - destruct q as [|item q].
    + simpl. subst removed kept st'. f_equal.
      * do 2 f_equal. clear. induction (_memory_storage st) as [|x l IH]; [done|].
        rewrite filter_cons_True by done. simpl. by f_equal.
      * f_equal. clear. induction (_memory_storage st) as [|x l IH]; [done|].
        rewrite filter_cons_False; [done|]. by intros H; apply H.
    + unfold delete_many. by rewrite delete_matching_answered.
  - subst removed kept. rewrite <- length_app. apply Permutation_length.
    apply (filter_app_complement (λ l, accepts (heap st) q l)).
  - rewrite count_documents_filter.
    + simpl. subst kept. by rewrite filter_rejected_accepts.
    + simpl. intros l Hl%list_elem_of_filter. apply Hans, Hl.
Qed.

(** X8: [delete_many] is not all-or-nothing.  The loop walks the storage
    list from its end, so when the matcher raises on a document, the
    exception leaves the call with the accepted documents after that one
    already removed and everything up to and including it still stored. *)
Theorem delete_many_stops_where_the_matcher_raises
    (st : state) (q : query) (pre post : list loc) (l : loc) (e : exn) :
  _memory_storage st = (pre ++ l :: post)%list →
  _match_query (deref (heap st) l) q = Raise e →
  answers (heap st) q post →
  delete_many (Some q) st
  = (Raise e,
     State (heap st)
       (pre ++ l :: filter (λ x, ¬ accepts (heap st) q x) post)%list
       (_use_memory_storage st)).
Proof.
  intros Hitems Hl Hans.
  assert (delete_matching (heap st) q (pre ++ l :: post)%list
          = (Raise e, (pre ++ l :: filter (λ x, ¬ accepts (heap st) q x) post)%list))
    as Hdel.
  { clear Hitems. induction pre as [|x pre IH]; simpl.
    - by rewrite (delete_matching_answered _ _ _ Hans), Hl.
    - by rewrite IH. }
  destruct q as [|item q]; [done|].
  unfold delete_many. by rewrite Hitems, Hdel.
Qed.
End selection_facts.

(** The three books, of which two have five stars. *)
Lemma count_documents_counts_find_witness :
  MemoryCursor.to_list (heap example_store)
    (MemoryCursor.init [2%positive; 3%positive]) None
  = Ok [2%positive; 3%positive]
  ∧ MemoryCollection.count_documents (rt := example_runtime)
      (Some [("star_rating", QLit (VInt 5))]) example_store = Ok 2
  ∧ (2 ≤ 3)%nat.
Proof.
  apply (count_documents_counts_find (rt := example_runtime) example_store
           (Some [("star_rating", QLit (VInt 5))])
           (MemoryCursor.init [2%positive; 3%positive]) None).
  reflexivity.
Defined.

Lemma find_one_is_the_head_of_find_witness :
  MemoryCollection.find_one (rt := example_runtime)
    [("star_rating", QLit (VInt 5))] example_store = Ok (Some 2%positive).
Proof.
  apply (find_one_is_the_head_of_find (rt := example_runtime) example_store
           [("star_rating", QLit (VInt 5))]
           (MemoryCursor.init [2%positive; 3%positive])).
  reflexivity.
Defined.

Lemma delete_one_removes_the_first_match_witness :
  ∃ pre l post,
    _memory_storage example_store = (pre ++ l :: post)%list
    ∧ accepts (rt := example_runtime) (heap example_store)
        [("star_rating", QLit (VInt 5))] l = true
    ∧ Forall (λ x, accepts (rt := example_runtime) (heap example_store)
                     [("star_rating", QLit (VInt 5))] x = false) pre
    ∧ MemoryCollection.delete_one (rt := example_runtime)
        [("star_rating", QLit (VInt 5))] example_store
      = Ok (1, State (heap example_store) (pre ++ post)%list true)
    ∧ MemoryCollection.count_documents (rt := example_runtime)
        (Some [("star_rating", QLit (VInt 5))])
        (State (heap example_store) (pre ++ post)%list true)
      = Ok (2 - 1).
Proof.
  apply (proj2 (delete_one_removes_the_first_match (rt := example_runtime)
                  example_store [("star_rating", QLit (VInt 5))] 2 eq_refl)).
  lia.
Defined.

Lemma delete_many_removes_the_accepted_witness :
  MemoryCollection.delete_many (rt := example_runtime)
    (Some [("star_rating", QLit (VInt 5))]) example_store
  = (Ok 2, State example_heap [1%positive] true).
Proof.
  refine (proj1 (delete_many_removes_the_accepted (rt := example_runtime)
                   example_store [("star_rating", QLit (VInt 5))] _)).
  intros l Hl.
  repeat (apply elem_of_cons in Hl as [->|Hl]); [..|by apply elem_of_nil in Hl];
    vm_compute; eauto.
Defined.

(** The price of the second document cannot be compared with 20: the third
    book, which costs 30, is gone when the exception leaves the call, the
    first, which costs 10 and comes before, was never looked at. *)
Lemma delete_many_stops_where_the_matcher_raises_witness :
  MemoryCollection.delete_many (rt := example_runtime)
    (Some (price_at_least 20)) mixed_store
  = (Raise TypeError,
     State (heap mixed_store) [1%positive; 2%positive] true).
Proof.
  refine (delete_many_stops_where_the_matcher_raises (rt := example_runtime)
            mixed_store (price_at_least 20) [1%positive] [3%positive] 2%positive
            TypeError eq_refl eq_refl _).
  intros l Hl.
  repeat (apply elem_of_cons in Hl as [->|Hl]); [..|by apply elem_of_nil in Hl];
    vm_compute; eauto.
Defined.

(** ** Identifiers: [insert_one], [insert_many] and the lookup by identifier *)

Section identifier_facts.
Context {rt : PyRuntime}.
Import MemoryCollection.

Lemma insert_one_state (now : Z) (document : loc) (st : state) :
  let d := <["_id" := new_id st now]> (deref (heap st) document) in
  let h1 := <[document := d]> (heap st) in
  let copy := fresh (dom h1) in
  insert_one now document st
  = (new_id st now,
     State (<[copy := d]> h1) (_memory_storage st ++ [copy])%list
       (_use_memory_storage st)).
Proof.
  intros d h1 copy. unfold insert_one, alloc. cbv zeta. fold d. fold h1. fold copy.
  by replace (deref h1 document) with d by (symmetry; apply deref_insert_eq).
Qed.

Lemma insert_many_from_spec (clock : nat → Z) (documents : list loc) :
  ∀ (i : nat) (st : state),
    let ids := fst (insert_many_from clock i documents st) in
    let st' := snd (insert_many_from clock i documents st) in
    length ids = length documents
    ∧ (∃ copies, _memory_storage st' = (_memory_storage st ++ copies)%list
                 ∧ length copies = length documents)
    ∧ (∀ k, (k < length documents)%nat →
         ids !! k
         = Some (VStr ("mem_" +:+ pretty (Z.of_nat (length (_memory_storage st) + k))
                         +:+ "_" +:+ pretty (clock (i + k)%nat))))
    ∧ (well_formed st → well_formed st').
Proof.
  induction documents as [|doc documents IH]; intros i st.
  - simpl. split_and!; [done|exists []; by rewrite app_nil_r|intros k Hk; lia|done].
  - cbn [insert_many_from].
    pose proof (insert_one_state (clock i) doc st) as Hone.
    pose proof (insert_one_well_formed (clock i) doc st) as Hwf.
    cbv zeta in Hone.
    destruct (insert_one (clock i) doc st) as [id st1] eqn:Hins.
    injection Hone as -> Hst1.
    specialize (IH (S i) st1).
    destruct (insert_many_from clock (S i) documents st1) as [ids st2].
    simpl in *. destruct IH as (Hlen & (copies & Hcopies & Hclen) & Hids & Hwf').
    assert (length (_memory_storage st1) = S (length (_memory_storage st))) as Hl1.
    { rewrite Hst1. simpl. rewrite length_app. simpl. lia. }
    split_and!.
    + simpl. by f_equal.
    + rewrite Hcopies, Hst1. simpl. rewrite <- app_assoc. simpl.
      eexists. split; [done|]. simpl. by rewrite Hclen.
    + intros [|k] Hk; simpl in Hk; simpl.
      * unfold new_id. by rewrite !Nat.add_0_r.
      * rewrite Hids by lia. rewrite Hl1.
        replace (S (length (_memory_storage st)) + k)%nat
          with (length (_memory_storage st) + S k)%nat by lia.
        by replace (S (i + k)) with (i + S k)%nat by lia.
    + intros Hst. apply Hwf', Hwf, Hst.
Qed.

(** X9: [insert_many] returns one identifier for each document, in order:
    the [k]-th is made of the storage length before the call plus [k] and of
    the clock reading at that document.  The documents already stored keep
    their places, as many new entries as there were documents follow them,
    and a storage list of distinct heap objects stays one. *)
Theorem insert_many_assigns_consecutive_identifiers
    (clock : nat → Z) (documents : list loc) (st : state) :
  let ids := fst (insert_many clock documents st) in
  let st' := snd (insert_many clock documents st) in
  length ids = length documents
  ∧ (∃ copies, _memory_storage st' = (_memory_storage st ++ copies)%list
               ∧ length copies = length documents)
  ∧ (∀ k, (k < length documents)%nat →
       ids !! k
       = Some (VStr ("mem_" +:+ pretty (Z.of_nat (length (_memory_storage st) + k))
                       +:+ "_" +:+ pretty (clock k))))
  ∧ (well_formed st → well_formed st').
Proof. apply (insert_many_from_spec clock documents 0 st). Qed.

Lemma py_eq_refl (v : value) : py_eq v v = true.
Proof. destruct v; simpl; by rewrite ?bool_decide_eq_true_2. Qed.

(** X10: insert, then look up by the identifier returned.  When the
    caller's dictionary is not itself a stored one and no stored document
    already carries the identifier about to be assigned, [find_one] by that
    identifier returns the entry [insert_one] appended, which holds the
    caller's fields and the identifier. *)
Theorem insert_one_then_find_one (now : Z) (document : loc) (st : state) :
  (∀ l, l ∈ _memory_storage st → l ∈ dom (heap st)) →
  document ∉ _memory_storage st →
  (∀ l x, l ∈ _memory_storage st → deref (heap st) l !! "_id" = Some x →
     py_eq x (new_id st now) = false) →
  let id := fst (insert_one now document st) in
  let st' := snd (insert_one now document st) in
  ∃ copy,
    _memory_storage st' = (_memory_storage st ++ [copy])%list
    ∧ find_one [("_id", QLit id)] st' = Ok (Some copy)
    ∧ deref (heap st') copy = <["_id" := id]> (deref (heap st) document).
Proof.
  intros Hlive Hcaller Hnew id st'. subst id st'.
  rewrite insert_one_state. simpl.
  set (d := <["_id" := new_id st now]> (deref (heap st) document)).
  set (h1 := <[document := d]> (heap st)).
  set (copy := fresh (dom h1)).
  assert (copy ∉ dom h1) as Hfresh by apply is_fresh.
  assert (copy ∉ _memory_storage st) as Hcopy.
  { intros Hin. apply Hfresh. unfold h1. rewrite dom_insert_L.
    apply elem_of_union_r. by apply Hlive. }
  exists copy. split_and!; [done| |apply deref_insert_eq].
  unfold find_one. simpl.
  rewrite (first_match_found _ _ _ 0 (length (_memory_storage st)) copy).
  - done.
  - by rewrite lookup_app_r, Nat.sub_diag.
  - rewrite deref_insert_eq. simpl. unfold match_item, d.
    rewrite lookup_insert_eq. by rewrite py_eq_refl.
  - intros j l' Hj Hl'. rewrite lookup_app_l in Hl' by done.
    assert (l' ∈ _memory_storage st) as Hin by (apply list_elem_of_lookup; eauto).
    rewrite deref_insert_ne by (by intros ->).
    unfold h1. rewrite deref_insert_ne by (by intros ->).
    simpl. unfold match_item.
    destruct (deref (heap st) l' !! "_id") as [x|] eqn:Hx; [|done].
    simpl. by rewrite (Hnew l' x).
Qed.

(** X11: identifiers are not unique over time.  The identifier is made of
    the storage length and the clock reading alone, so after a document was
    inserted and any one document was deleted, an insert at the same clock
    reading returns the identifier the first insert returned. *)
Theorem identifier_repeats_after_a_delete
    (now : Z) (d1 d2 : loc) (q : query) (st st2 : state) :
  delete_one q (snd (insert_one now d1 st)) = Ok (1, st2) →
  fst (insert_one now d2 st2) = fst (insert_one now d1 st)
  ∧ length (_memory_storage st2) = length (_memory_storage st).
Proof.
  rewrite !insert_one_state. simpl. unfold delete_one. simpl.
  intros ([[i l]|] & Hm & [= <-])%bind_Ok.
  apply first_match_stored in Hm as (k & -> & Hk). simpl in *.
  assert (length (delete k (_memory_storage st ++ [fresh (dom
            (<[d1 := <["_id" := new_id st now]> (deref (heap st) d1)]> (heap st)))])%list)
          = length (_memory_storage st)) as Hlen.
  { rewrite length_delete by eauto.
    rewrite length_app. simpl. lia. }
  split; [|done]. unfold new_id in Hlen |- *. simpl. by rewrite Hlen.
Qed.
End identifier_facts.

Lemma insert_one_then_find_one_witness :
  ∃ copy,
    _memory_storage (snd (MemoryCollection.insert_one 1700000000 4%positive
                            store_and_caller))
    = ([1%positive; 2%positive; 3%positive] ++ [copy])%list
    ∧ MemoryCollection.find_one (rt := example_runtime)
        [("_id", QLit (fst (MemoryCollection.insert_one 1700000000 4%positive
                              store_and_caller)))]
        (snd (MemoryCollection.insert_one 1700000000 4%positive store_and_caller))
      = Ok (Some copy)
    ∧ deref (heap (snd (MemoryCollection.insert_one 1700000000 4%positive
                          store_and_caller))) copy
      = <["_id" := fst (MemoryCollection.insert_one 1700000000 4%positive
                          store_and_caller)]>
          (deref (heap store_and_caller) 4%positive).
Proof.
  apply (insert_one_then_find_one (rt := example_runtime) 1700000000 4%positive
           store_and_caller).
  - intros l Hl. vm_compute in Hl.
    repeat (apply elem_of_cons in Hl as [->|Hl]); [..|by apply elem_of_nil in Hl];
      apply elem_of_dom; vm_compute; eauto.
  - intros Hl. vm_compute in Hl.
    repeat (apply elem_of_cons in Hl as [Hl|Hl]); try discriminate.
    by apply elem_of_nil in Hl.
  - intros l x Hl. vm_compute in Hl.
    repeat (apply elem_of_cons in Hl as [->|Hl]); [..|by apply elem_of_nil in Hl];
      vm_compute; discriminate.
Defined.

(** Insert a fourth document, delete the first book, insert again within the
    same second: both inserts return [mem_3_1700000000]. *)
Lemma identifier_repeats_after_a_delete_witness :
  fst (MemoryCollection.insert_one 1700000000 4%positive
         (State (heap (snd (MemoryCollection.insert_one 1700000000 4%positive
                              store_and_caller)))
            [2%positive; 3%positive; 5%positive] true))
  = VStr "mem_3_1700000000"
  ∧ length [2%positive; 3%positive; 5%positive] = 3%nat.
Proof.
  apply (identifier_repeats_after_a_delete (rt := example_runtime)
           1700000000 4%positive 4%positive [("title", QLit (VStr "A"))]
           store_and_caller).
  reflexivity.
Defined.

(** ** More on the cursor *)

Lemma py_lt_raises_TypeError (a b : value) (e : exn) :
  py_lt a b = Raise e → e = TypeError.
Proof. destruct a, b; simpl; congruence. Qed.

Lemma bind_Raise {A B} (m : result A) (f : A → result B) (e : exn) :
  m ≫= f = Raise e ↔ m = Raise e ∨ ∃ a, m = Ok a ∧ f a = Raise e.
Proof.
  destruct m as [a|e']; simpl; split.
  - intros Hf. right. eauto.
  - by intros [?|(? & [= <-] & ?)].
  - intros [= ->]. by left.
  - by intros [[= ->]|(? & ? & ?)].
Qed.

Section sort_raises.
Context {A : Type} (key : A → value).

Lemma insert_sorted_raises_TypeError (x : A) (l : list A) (e : exn) :
  insert_sorted key x l = Raise e → e = TypeError.
Proof.
  induction l as [|y l IH]; simpl; [done|].
  intros [Hlt|(b & _ & Hrest)]%bind_Raise.
  - by eapply py_lt_raises_TypeError.
  - destruct b; [|done].
    apply bind_Raise in Hrest as [Hrest|(r & _ & ?)]; [by apply IH|done].
Qed.

Lemma sort_ascending_raises_TypeError (l : list A) (e : exn) :
  sort_ascending key l = Raise e → e = TypeError.
Proof.
  induction l as [|x l IH]; simpl; [done|].
  intros [Hrest|(s & _ & Hins)]%bind_Raise; [by apply IH|].
  by eapply insert_sorted_raises_TypeError.
Qed.

Lemma list_sort_raises_TypeError (reverse : bool) (l : list A) (e : exn) :
  list_sort key reverse l = Raise e → e = TypeError.
Proof.
  destruct reverse; simpl; [|apply sort_ascending_raises_TypeError].
  intros [Hrest|(s & _ & ?)]%bind_Raise; [|done].
  by eapply sort_ascending_raises_TypeError.
Qed.

Lemma list_sort_comparable (descending : bool) (l s : list A) :
  (2 ≤ length l)%nat → list_sort key descending l = Ok s → comparable key l.
Proof.
  intros Hlen Hs. apply list_sort_stable in Hs as (Hperm & Hsorted & _).
  assert (∀ a b, (if descending then key_ge key else key_le key) a b →
                 ∃ r, py_lt (key a) (key b) = Ok r) as Hrel.
  { intros a b. destruct descending; unfold key_ge, key_le; [eauto|].
    intros H. by eapply py_lt_comparable_sym. }
  rewrite <- Hperm in Hlen.
  destruct Hsorted as [|a t Ht Ha]; [simpl in Hlen; lia|].
  destruct t as [|z t]; [simpl in Hlen; lia|].
  assert (∀ w, w ∈ a :: z :: t → ∃ r, py_lt (key a) (key w) = Ok r) as Hhead.
  { intros w [->|Hw]%elem_of_cons.
    - destruct (Hrel a z) as [r1 Hr1]; [by eapply Forall_inv|].
      destruct (py_lt_comparable_sym _ _ _ Hr1) as [r2 Hr2].
      by eapply py_lt_comparable_trans.
    - apply Hrel. by eapply Forall_forall in Ha. }
  intros x y Hx Hy. rewrite <- Hperm in Hx, Hy.
  destruct (Hhead x Hx) as [r1 Hr1]. destruct (Hhead y Hy) as [r2 Hr2].
  destruct (py_lt_comparable_sym _ _ _ Hr1) as [r3 Hr3].
  by eapply py_lt_comparable_trans.
Qed.
End sort_raises.

Section more_cursor_facts.
Import MemoryCursor.

(** X12: consecutive pages fit together.  For a non-negative skip and two
    positive page sizes, the page of [n + m] documents is the page of [n]
    documents followed by the page of [m] documents that skips [n] more. *)
Theorem consecutive_pages_concatenate
    (h : gmap loc doc) (c : cursor) (n m : Z) (length : option Z) :
  0 ≤ _skip c → 0 < n → 0 < m →
  to_list h (limit (n + m) c) length
  = (p1 ← to_list h (limit n c) length;
     p2 ← to_list h (limit m (skip (_skip c + n) c)) length;
     Ok (p1 ++ p2)%list).
Proof.
  intros Hs Hn Hm. unfold to_list.
  change (sorted_data h (limit (n + m) c)) with (sorted_data h c).
  change (sorted_data h (limit n c)) with (sorted_data h c).
  change (sorted_data h (limit m (skip (_skip c + n) c))) with (sorted_data h c).
  destruct (sorted_data h c) as [s|e]; simpl; [|done].
  rewrite !bool_decide_eq_false_2 by lia.
  rewrite !py_slice_range by lia. f_equal.
  rewrite !Z2Nat.inj_add by lia.
  by rewrite <- take_take_drop, drop_drop.
Qed.

(** X13: how many documents [to_list] returns.  With a non-negative skip,
    it is what the data holds beyond the skip, cut to the limit when a
    non-zero limit was set: never more than the limit, and nothing once the
    skip reaches the size of the data. *)
Theorem to_list_length
    (h : gmap loc doc) (c : cursor) (length_arg : option Z) (r : list loc) :
  0 ≤ _skip c →
  (∀ n, _limit c = Some n → 0 ≤ n) →
  to_list h c length_arg = Ok r →
  let rest := (length (data c) - Z.to_nat (_skip c))%nat in
  length r = match _limit c with
             | Some n => if bool_decide (n = 0) then rest
                         else (Z.to_nat n `min` rest)%nat
             | None => rest
             end.
Proof.
  intros Hs Hl. unfold to_list. intros (s & Hsorted & [= <-])%bind_Ok.
  assert (length s = length (data c)) as <-.
  { apply sorted_data_stable in Hsorted.
    destruct (_sort_field c); [|by subst].
    case_bool_decide; [by subst|]. apply Permutation_length, Hsorted. }
  simpl. destruct (_limit c) as [n|] eqn:Hn.
  - case_bool_decide.
    + by rewrite py_slice_from, length_drop.
    + rewrite py_slice_range by eauto. by rewrite length_take, length_drop.
  - by rewrite py_slice_from, length_drop.
Qed.

(** X14: a negative skip is not rejected and does not mean zero: with no
    limit set, [skip(-k)] lists the last [k] documents of the sorted data,
    all of them when there are fewer than [k]. *)
Theorem negative_skip_lists_the_tail
    (h : gmap loc doc) (c : cursor) (length_arg : option Z) :
  _skip c < 0 → _limit c = None →
  to_list h c length_arg
  = (s ← sorted_data h c; Ok (drop (length s - Z.to_nat (- _skip c)) s)).
Proof.
  intros Hs Hl. unfold to_list. destruct (sorted_data h c) as [s|e]; simpl; [|done].
  rewrite Hl. f_equal. unfold py_slice, slice_index.
  destruct (Z.ltb_spec (_skip c) 0); [|lia].
  rewrite take_ge by (rewrite length_drop; lia). f_equal. lia.
Qed.

(** X15: when [to_list] sorts two documents or more, it returns if the sort
    keys can be compared with one another, and raises [TypeError] if they
    cannot, as when a document without the field meets the default [0]
    against strings: the call returns exactly when the keys are
    comparable. *)
Theorem to_list_raises_on_incomparable_keys
    (h : gmap loc doc) (c : cursor) (field : string) (length_arg : option Z) :
  _sort_field c = Some field → field ≠ "" → (2 ≤ length (data c))%nat →
  (comparable (sort_key h field) (data c) ↔ ∃ r, to_list h c length_arg = Ok r)
  ∧ (¬ comparable (sort_key h field) (data c) →
     to_list h c length_arg = Raise TypeError).
Proof.
  intros Hf Hne Hlen.
  assert (sorted_data h c
          = list_sort (sort_key h field) (bool_decide (_sort_direction c = -1)) (data c))
    as Hsd.
  { unfold sorted_data. rewrite Hf. by rewrite bool_decide_eq_false_2. }
  assert ((∃ r, to_list h c length_arg = Ok r) → comparable (sort_key h field) (data c))
    as Hback.
  { intros [r Hr]. unfold to_list in Hr.
    apply bind_Ok in Hr as (s & Hs & _). rewrite Hsd in Hs.
    by eapply list_sort_comparable. }
  split; [split; [|done]|].
  - intros Hcmp. unfold to_list. rewrite Hsd.
    destruct (list_sort_returns _ (bool_decide (_sort_direction c = -1)) _ Hcmp)
      as [s ->]. simpl. eauto.
  - intros Hn. destruct (to_list h c length_arg) as [r|e] eqn:Hr.
    + destruct Hn. apply Hback. eauto.
    + f_equal. unfold to_list in Hr.
      apply bind_Raise in Hr as [Hr|(s & _ & ?)]; [|done].
      rewrite Hsd in Hr. by eapply list_sort_raises_TypeError.
Qed.

Lemma filter_all {A} (P : A → Prop) `{∀ x, Decision (P x)} (l : list A) :
  Forall P l → filter P l = l.
Proof.
  induction 1 as [|x l Hx _ IH]; [done|]. by rewrite filter_cons_True, IH.
Qed.

(** X16: sorting by a field that no document of the data has changes
    nothing, in either direction: every key is the default [0], and the
    sort, being stable, leaves the documents in the order they had. *)
Theorem sort_by_an_absent_field_keeps_the_order
    (h : gmap loc doc) (c : cursor) (field : string) (direction : Z)
    (length_arg : option Z) :
  field ≠ "" →
  (∀ x, x ∈ data c → deref h x !! field = None) →
  to_list h (sort field direction c) length_arg
  = to_list h (MkCursor (data c) (_skip c) (_limit c) None 1) length_arg.
Proof.
  intros Hne Habsent.
  assert (∀ x, x ∈ data c → sort_key h field x = VInt 0) as Hkey.
  { intros x Hx. unfold sort_key, dict_get. by rewrite Habsent. }
  assert (sorted_data h (sort field direction c) = Ok (data c)) as Hsd.
  { unfold sorted_data. simpl. rewrite bool_decide_eq_false_2 by done.
    destruct (list_sort_returns (sort_key h field)
                (bool_decide (direction = -1)) (data c)) as [s Hs].
    { intros x y Hx Hy. rewrite !Hkey by done. simpl. eauto. }
    rewrite Hs. f_equal.
    apply list_sort_stable in Hs as (Hperm & _ & Hstable).
    specialize (Hstable (VInt 0)).
    rewrite !filter_all in Hstable; [done|..].
    - apply Forall_forall. intros x Hx. by rewrite Hkey.
    - apply Forall_forall. intros x Hx. rewrite Hkey; [done|].
      by rewrite <- Hperm. }
  unfold to_list. by rewrite Hsd.
Qed.
End more_cursor_facts.

Lemma consecutive_pages_concatenate_witness :
  MemoryCursor.to_list example_heap
    (MemoryCursor.limit (1 + 1) (MemoryCursor.sort "price" (-1)
       (MemoryCursor.init [1%positive; 2%positive; 3%positive]))) None
  = Ok ([2%positive] ++ [3%positive])%list.
Proof.
  apply (consecutive_pages_concatenate example_heap
           (MemoryCursor.sort "price" (-1)
              (MemoryCursor.init [1%positive; 2%positive; 3%positive]))
           1 1 None); simpl; lia.
Defined.

Lemma to_list_length_witness :
  length [3%positive; 1%positive] = (5 `min` (3 - 1))%nat.
Proof.
  apply (to_list_length example_heap
           (MemoryCursor.limit 5 (MemoryCursor.skip 1 (MemoryCursor.sort "price" (-1)
              (MemoryCursor.init [1%positive; 2%positive; 3%positive]))))
           (Some 5) [3%positive; 1%positive]).
  - simpl. lia.
  - simpl. intros n [= <-]. lia.
  - reflexivity.
Defined.

(** [skip(-2)] on the three books by ascending price lists the two dearest. *)
Lemma negative_skip_lists_the_tail_witness :
  MemoryCursor.to_list example_heap
    (MemoryCursor.skip (-2) (MemoryCursor.sort "price" 1
       (MemoryCursor.init [1%positive; 2%positive; 3%positive]))) None
  = Ok [3%positive; 2%positive].
Proof.
  apply (negative_skip_lists_the_tail example_heap
           (MemoryCursor.skip (-2) (MemoryCursor.sort "price" 1
              (MemoryCursor.init [1%positive; 2%positive; 3%positive]))) None).
  - simpl. lia.
  - reflexivity.
Defined.

(** Sorting the store with the non-numeric price by price raises. *)
Lemma to_list_raises_on_incomparable_keys_witness :
  MemoryCursor.to_list (heap mixed_store)
    (MemoryCursor.sort "price" 1
       (MemoryCursor.init [1%positive; 2%positive; 3%positive])) None
  = Raise TypeError.
Proof.
  refine (proj2 (to_list_raises_on_incomparable_keys (heap mixed_store)
                   (MemoryCursor.sort "price" 1
                      (MemoryCursor.init [1%positive; 2%positive; 3%positive]))
                   "price" None eq_refl _ _) _).
  - discriminate.
  - simpl. lia.
  - intros Hcmp.
    destruct (Hcmp 1%positive 2%positive) as [b Hb]; [left|right; left|].
    vm_compute in Hb. discriminate.
Defined.

Lemma sort_by_an_absent_field_keeps_the_order_witness :
  MemoryCursor.to_list example_heap
    (MemoryCursor.sort "isbn" (-1)
       (MemoryCursor.init [1%positive; 2%positive; 3%positive])) None
  = Ok [1%positive; 2%positive; 3%positive].
Proof.
  apply (sort_by_an_absent_field_keeps_the_order example_heap
           (MemoryCursor.init [1%positive; 2%positive; 3%positive])
           "isbn" (-1) None).
  - discriminate.
  - intros x Hx.
    repeat (apply elem_of_cons in Hx as [->|Hx]); [..|by apply elem_of_nil in Hx];
      reflexivity.
Defined.

(** ** More on the aggregation *)

Lemma py_eq_sym (a b : value) : py_eq a b = py_eq b a.
Proof.
  destruct a, b; simpl; try done; apply bool_decide_ext; split; by intros ->.
Qed.

Lemma py_eq_trans (a b c : value) :
  py_eq a b = true → py_eq b c = true → py_eq a c = true.
Proof.
  destruct a, b, c; simpl; try done; rewrite !bool_decide_eq_true; congruence.
Qed.

Lemma filter_none {A} (P : A → Prop) `{∀ x, Decision (P x)} (l : list A) :
  Forall (λ x, ¬ P x) l → filter P l = [].
Proof.
  induction 1 as [|x l Hx _ IH]; [done|]. by rewrite filter_cons_False.
Qed.

Section aggregation_facts.
Context {rt : PyRuntime}.
Import MemoryAggregationCursor.

Lemma setdefault_append_new (key : value) (item : doc)
    (groups : list (value * list doc)) :
  Forall (λ g, py_eq g.1 key = false) groups →
  setdefault_append key item groups = (groups ++ [(key, [item])])%list.
Proof.
  induction 1 as [|[k ds] groups Hk _ IH]; simpl; [done|].
  simpl in Hk. by rewrite Hk, IH.
Qed.

Lemma setdefault_append_found (key : value) (item : doc)
    (pre post : list (value * list doc)) (k : value) (ds : list doc) :
  Forall (λ g, py_eq g.1 key = false) pre → py_eq k key = true →
  setdefault_append key item (pre ++ (k, ds) :: post)%list
  = (pre ++ (k, (ds ++ [item])%list) :: post)%list.
Proof.
  induction 1 as [|[k' ds'] pre Hk _ IH]; simpl; intros Hkey.
  - by rewrite Hkey.
  - simpl in Hk. by rewrite Hk, IH.
Qed.

Lemma groups_split (key : value) (groups : list (value * list doc)) :
  Forall (λ g, py_eq g.1 key = false) groups
  ∨ ∃ pre k ds post, groups = (pre ++ (k, ds) :: post)%list
                     ∧ Forall (λ g, py_eq g.1 key = false) pre
                     ∧ py_eq k key = true.
Proof.
  induction groups as [|[k ds] groups IH]; [by left|].
  destruct (py_eq k key) eqn:Hk.
  - right. exists [], k, ds, groups. by split_and!.
  - destruct IH as [IH|(pre & k' & ds' & post & -> & Hpre & Hk')].
    + left. by constructor.
    + right. exists ((k, ds) :: pre), k', ds', post. split_and!; try done.
      by constructor.
Qed.

(** What the loop of the keyed branch keeps true of [groups] after the
    documents [seen]: a group holds, in order, the documents seen whose key
    equals the group's, and there is at least one; no two groups have equal
    keys; every document seen has a group. *)
Definition grouped (gf : value) (seen : list doc)
    (groups : list (value * list doc)) : Prop :=
  (∀ k ds, (k, ds) ∈ groups →
     ds = filter (λ d, py_eq k (group_key d gf) = true) seen ∧ ds ≠ [])
  ∧ (∀ i j k1 ds1 k2 ds2, groups !! i = Some (k1, ds1) → groups !! j = Some (k2, ds2) →
       py_eq k1 k2 = true → i = j)
  ∧ (∀ d, d ∈ seen → ∃ k ds, (k, ds) ∈ groups ∧ py_eq k (group_key d gf) = true).

Lemma grouped_step (gf : value) (seen : list doc) (item : doc)
    (groups : list (value * list doc)) :
  grouped gf seen groups →
  grouped gf (seen ++ [item])%list
    (setdefault_append (group_key item gf) item groups).
Proof.
  intros (Hmembers & Hdistinct & Hcover).
  set (key := group_key item gf).
  destruct (groups_split key groups)
    as [Hnew|(pre & k & ds & post & -> & Hpre & Hk)].
  - rewrite setdefault_append_new by done.
    assert (∀ k ds, (k, ds) ∈ groups → py_eq k key = false) as Hnew'.
    { intros k ds Hin. apply (proj1 (Forall_forall _ _) Hnew (k, ds) Hin). }
    split_and!.
    + intros k ds [Hin|Hin%list_elem_of_singleton]%elem_of_app.
      * destruct (Hmembers k ds Hin) as [-> Hne]. split; [|done].
        rewrite filter_app, filter_cons_False, app_nil_r; [done|].
        fold key. by rewrite (Hnew' _ _ Hin).
      * injection Hin as -> ->. split; [|done].
        rewrite filter_app, (filter_cons_True _ item) by apply py_eq_refl.
        rewrite filter_none; [done|].
        apply Forall_forall. intros d Hd Hkd.
        destruct (Hcover d Hd) as (k & ds & Hin & Hk).
        assert (py_eq k key = true) as Habs.
        { eapply py_eq_trans; [exact Hk|]. by rewrite py_eq_sym. }
        by rewrite (Hnew' _ _ Hin) in Habs.
    + intros i j k1 ds1 k2 ds2 Hi Hj Heq.
      destruct (decide (i < length groups)%nat) as [Hil|Hil];
        destruct (decide (j < length groups)%nat) as [Hjl|Hjl].
      * rewrite lookup_app_l in Hi, Hj by done. eauto.
      * rewrite lookup_app_l in Hi by done. rewrite lookup_app_r in Hj by lia.
        destruct (j - length groups)%nat; [|done]. injection Hj as <- <-.
        apply list_elem_of_lookup_2 in Hi. by rewrite (Hnew' _ _ Hi) in Heq.
      * rewrite lookup_app_l in Hj by done. rewrite lookup_app_r in Hi by lia.
        destruct (i - length groups)%nat; [|done]. injection Hi as <- <-.
        apply list_elem_of_lookup_2 in Hj. rewrite py_eq_sym in Heq.
        by rewrite (Hnew' _ _ Hj) in Heq.
      * apply lookup_lt_Some in Hi, Hj. rewrite length_app in Hi, Hj.
        simpl in *. lia.
    + intros d [Hd|Hd%list_elem_of_singleton]%elem_of_app.
      * destruct (Hcover d Hd) as (k & ds & Hin & Hk).
        exists k, ds. split; [|done]. apply elem_of_app. by left.
      * subst d. exists key, [item]. split; [|apply py_eq_refl].
        apply elem_of_app. right. left.
  - rewrite setdefault_append_found by done.
    assert (∀ k' ds', (k', ds') ∈ pre → py_eq k' key = false) as Hpre'.
    { intros k' ds' Hin. apply (proj1 (Forall_forall _ _) Hpre (k', ds') Hin). }
    assert (∀ k' ds', (k', ds') ∈ post → py_eq k' key = false) as Hpost'.
    { intros k' ds' [j Hj]%list_elem_of_lookup.
      destruct (py_eq k' key) eqn:Hk'; [|done].
      assert (length pre = (length pre + S j)%nat); [|lia].
      apply (Hdistinct _ _ k ds k' ds').
      - by rewrite lookup_app_r, Nat.sub_diag by lia.
      - rewrite lookup_app_r by lia.
        by replace (length pre + S j - length pre)%nat with (S j) by lia.
      - rewrite (py_eq_sym k' key) in Hk'. by eapply py_eq_trans. }
    split_and!.
    + intros k' ds' [Hin|[Hin|Hin]%elem_of_cons]%elem_of_app.
      * destruct (Hmembers k' ds') as [-> Hne]; [apply elem_of_app; by left|].
        split; [|done]. rewrite filter_app, filter_cons_False, app_nil_r; [done|].
        fold key. by rewrite (Hpre' _ _ Hin).
      * injection Hin as -> ->.
        destruct (Hmembers k ds) as [-> _]; [apply elem_of_app; right; left|].
        split; [|by destruct (filter _ seen)].
        by rewrite filter_app, (filter_cons_True _ item).
      * destruct (Hmembers k' ds') as [-> Hne];
          [apply elem_of_app; right; by right|].
        split; [|done]. rewrite filter_app, filter_cons_False, app_nil_r; [done|].
        fold key. by rewrite (Hpost' _ _ Hin).
    + intros i j k1 ds1 k2 ds2 Hi Hj Heq.
      assert (∀ n k' ds',
                (pre ++ (k, (ds ++ [item])%list) :: post)%list !! n = Some (k', ds') →
                ∃ ds0, (pre ++ (k, ds) :: post)%list !! n = Some (k', ds0)) as Hsame.
      { intros n k' ds' Hn.
        destruct (decide (n < length pre)%nat).
        - rewrite lookup_app_l in Hn |- * by done. eauto.
        - rewrite lookup_app_r in Hn |- * by lia.
          destruct (n - length pre)%nat; simpl in *; [|eauto].
          injection Hn as <- <-. eauto. }
      destruct (Hsame _ _ _ Hi) as [ds1' Hi'].
      destruct (Hsame _ _ _ Hj) as [ds2' Hj']. eauto.
    + intros d [Hd|Hd%list_elem_of_singleton]%elem_of_app.
      * destruct (Hcover d Hd) as (k' & ds' & Hin & Hk').
        apply elem_of_app in Hin as [Hin|[Hin|Hin]%elem_of_cons].
        -- exists k', ds'. split; [|done]. apply elem_of_app. by left.
        -- injection Hin as -> ->. exists k, (ds ++ [item])%list.
           split; [|done]. apply elem_of_app. right. left.
        -- exists k', ds'. split; [|done]. apply elem_of_app. right. by right.
      * subst d. exists k, (ds ++ [item])%list. split; [|done].
        apply elem_of_app. right. left.
Qed.

Lemma grouped_foldl (gf : value) (items seen : list doc)
    (groups : list (value * list doc)) :
  grouped gf seen groups →
  grouped gf (seen ++ items)%list
    (foldl (λ groups item, setdefault_append (group_key item gf) item groups)
       groups items).
Proof.
  revert seen groups. induction items as [|item items IH]; intros seen groups Hg.
  - by rewrite app_nil_r.
  - simpl. replace (seen ++ item :: items)%list with ((seen ++ [item]) ++ items)%list
      by by rewrite <- app_assoc.
    by apply IH, grouped_step.
Qed.

(** X17: the keyed branch of the aggregation.  It returns, for a group key
    other than [None], one result for each distinct value of the group key
    among the documents, values equal by [==] (such as [5] and [5.0])
    sharing a group: the [count] of a result is the number of documents with
    that value, no two results carry equal values, and every document is
    counted in one of them. *)
Theorem keyed_group_counts_each_value
    (items : list doc) (gf : value) (accumulators : gset string)
    (srt : option (string * Z)) (rest : list stage) :
  gf ≠ VNone →
  let groups := group_by items gf in
  run items (MkStage (Some (MkGroup (Some gf) accumulators)) srt :: rest)
  = Ok ((λ '(key, ds),
           <["_id" := key]> (<["count" := VInt (Z.of_nat (length ds))]> (∅ : doc)))
        <$> groups)
  ∧ (∀ k ds, (k, ds) ∈ groups →
       ds = filter (λ d, py_eq k (group_key d gf) = true) items ∧ ds ≠ [])
  ∧ (∀ i j k1 ds1 k2 ds2, groups !! i = Some (k1, ds1) → groups !! j = Some (k2, ds2) →
       py_eq k1 k2 = true → i = j)
  ∧ (∀ d, d ∈ items → ∃ k ds, (k, ds) ∈ groups ∧ py_eq k (group_key d gf) = true).
Proof.
  intros Hgf groups. split.
  - simpl. by destruct gf.
  - apply (grouped_foldl gf items [] []).
    split_and!; [by intros ? ? ?%elem_of_nil|done|by intros ? ?%elem_of_nil].
Qed.

(** X18: documents that do not have the group field fall into one group
    named [Unknown].  When no document has it, as with the group key
    [$star_rating] that the callers pass, which no stored field is called,
    the result is that single group with the size of the store as its
    count. *)
Theorem group_by_an_absent_field_is_one_unknown_group
    (items : list doc) (field : string) (accumulators : gset string)
    (srt : option (string * Z)) (rest : list stage) :
  items ≠ [] →
  (∀ d, d ∈ items → d !! field = None) →
  run items (MkStage (Some (MkGroup (Some (VStr field)) accumulators)) srt :: rest)
  = Ok [<["_id" := VStr "Unknown"]>
          (<["count" := VInt (Z.of_nat (length items))]> (∅ : doc))].
Proof.
  intros Hne Habsent. simpl. do 2 f_equal.
  assert (∀ seen ds,
            (∀ d, d ∈ ds → d !! field = None) →
            foldl (λ groups item,
                     setdefault_append (group_key item (VStr field)) item groups)
              [(VStr "Unknown", seen)] ds
            = [(VStr "Unknown", (seen ++ ds)%list)]) as Hfold.
  { intros seen ds. revert seen. induction ds as [|d ds IH]; intros seen Hds.
    - by rewrite app_nil_r.
    - simpl. unfold dict_get. rewrite (Hds d) by left. simpl.
      rewrite IH by (intros d' Hd'; apply Hds; by right).
      by rewrite <- app_assoc. }
  destruct items as [|d items]; [done|].
  unfold group_by. simpl. unfold dict_get. rewrite (Habsent d) by left. simpl.
  rewrite Hfold by (intros d' Hd'; apply Habsent; by right). done.
Qed.

(** X19: on an empty store the overall branch, taken for the group key
    [None], still returns one result document, and every entry of it is [0]:
    the averages, the minimum and the maximum are not computed, so nothing is
    asked of [sum], of the division or of the comparisons. *)
Theorem overall_statistics_of_nothing_are_zero
    (accumulators : gset string) (srt : option (string * Z)) (rest : list stage) :
  ∃ r, run [] (MkStage (Some (MkGroup (Some VNone) accumulators)) srt :: rest)
       = Ok [r]
       ∧ ∀ name v, r !! name = Some v → v = VInt 0.
Proof.
  simpl. unfold overall. simpl.
  repeat case_bool_decide; simpl; eexists; (split; [done|]);
    intros name v Hv;
    repeat (apply lookup_insert_Some in Hv as [[_ <-]|[_ Hv]]; [done|]);
    by rewrite lookup_empty in Hv.
Qed.

(** X20: the overall branch knows four accumulator names.  Its result
    document has an entry exactly for those of [avg_price], [min_price],
    [max_price] and [avg_rating] that the group stage asks for; any other
    accumulator of the stage, such as the [total_books] the summary asks
    for, is left out without a word. *)
Theorem overall_reports_four_statistics_only
    (items : list doc) (group : group_spec) (r : doc) :
  overall items group = Ok r →
  ∀ name, is_Some (r !! name)
          ↔ name ∈ group_accumulators group
            ∧ name ∈ ["avg_price"; "min_price"; "max_price"; "avg_rating"].
Proof.
  unfold overall.
  intros (r1 & H1 & (r2 & H2 & (r3 & H3 & H4)%bind_Ok)%bind_Ok)%bind_Ok name.
  assert (∀ (has : bool) (v : result value) (key : string) (r0 r' : doc) (P : Prop),
            (if has then v ≫= (λ x, Ok (<[key := x]> r0)) else Ok r0) = Ok r' →
            (is_Some (r0 !! name) ↔ P) →
            is_Some (r' !! name) ↔ (has = true ∧ name = key) ∨ P) as Hstep.
  { intros has v key r0 r' P Hr HP. destruct has.
    - apply bind_Ok in Hr as (x & _ & [= <-]).
      rewrite lookup_insert_is_Some. rewrite HP.
      destruct (decide (key = name)) as [->|]; intuition congruence.
    - injection Hr as <-. rewrite HP. intuition congruence. }
  apply (Hstep _ _ _ ∅ _ False) in H1;
    [|split; [by intros ?%lookup_empty_is_Some|done]].
  apply (Hstep _ _ _ _ _ _ H2) in H1 as H2'.
  apply (Hstep _ _ _ _ _ _ H3) in H2' as H3'.
  apply (Hstep _ _ _ _ _ _ H4) in H3' as H4'.
  rewrite H4'. rewrite !bool_decide_eq_true, !elem_of_cons, elem_of_nil.
  intuition congruence.
Qed.

(** The best of a list under a strict order that answers on all of it. *)
Lemma extremum_is_best (better : value → value → result bool)
    (xs seen : list value) (cur : value) :
  (∀ a b, better a b = Ok true → better b a = Ok false) →
  (∀ a b c, better b a = Ok false → better c b = Ok false → better c a = Ok false) →
  (∀ a b, a ∈ (seen ++ xs)%list → b ∈ (seen ++ xs)%list → ∃ r, better a b = Ok r) →
  cur ∈ seen → (∀ y, y ∈ seen → better y cur = Ok false) →
  ∃ m, extremum better cur xs = Ok m
       ∧ m ∈ (seen ++ xs)%list
       ∧ ∀ y, y ∈ (seen ++ xs)%list → better y m = Ok false.
Proof.
  intros Hasym Htrans. revert seen cur.
  induction xs as [|x xs IH]; intros seen cur Hcmp Hcur Hbest; simpl.
  - exists cur. rewrite app_nil_r. eauto.
  - assert (x ∈ (seen ++ x :: xs)%list) as Hx by (apply elem_of_app; right; left).
    assert (cur ∈ (seen ++ x :: xs)%list) as Hc by (apply elem_of_app; by left).
    destruct (Hcmp x cur Hx Hc) as [b Hb]. rewrite Hb. simpl.
    replace (seen ++ x :: xs)%list with ((seen ++ [x]) ++ xs)%list in *
      by by rewrite <- app_assoc.
    apply IH; [done| |].
    + destruct b; apply elem_of_app; [right; left|by left].
    + intros y [Hy|Hy%list_elem_of_singleton]%elem_of_app.
      * destruct b; [|by apply Hbest].
        eapply Htrans; [by apply Hasym|by apply Hbest].
      * subst y. destruct b; [|done].
        destruct (Hcmp x x Hx Hx) as [[] Hxx]; [by apply Hasym|done].
Qed.

(** X21: the minimum and the maximum of the overall branch.  On a
    non-empty list of values that can be compared with one another, [min]
    returns a member of the list that no member is below, and [max] a member
    that no member is above. *)
Theorem minimum_and_maximum_are_extreme (xs : list value) :
  xs ≠ [] → comparable (λ v, v) xs →
  (∃ m, minimum xs = Ok m ∧ m ∈ xs ∧ ∀ x, x ∈ xs → py_lt x m = Ok false)
  ∧ (∃ m, maximum xs = Ok m ∧ m ∈ xs ∧ ∀ x, x ∈ xs → py_lt m x = Ok false).
Proof.
  intros Hne Hcmp. destruct xs as [|x xs]; [done|].
  assert (py_lt x x = Ok false) as Hxx.
  { destruct (Hcmp x x) as [[] Hr]; [left|left| |done]. by apply py_lt_asym. }
  split.
  - apply (extremum_is_best py_lt xs [x] x); try done.
    + apply py_lt_asym.
    + apply py_le_trans.
    + left.
    + by intros y ->%list_elem_of_singleton.
  - apply (extremum_is_best py_gt xs [x] x); unfold py_gt; try done.
    + intros a b. apply py_lt_asym.
    + intros a b c Hab Hbc. by eapply py_le_trans.
    + intros a b Ha Hb. by apply Hcmp.
    + left.
    + by intros y ->%list_elem_of_singleton.
Qed.
End aggregation_facts.

(** Two of the books have five stars, one has three; [5.0] would count with
    [5]. *)
Lemma keyed_group_counts_each_value_witness :
  MemoryAggregationCursor.run (rt := example_runtime) (contents example_store)
    (MkStage (Some (MkGroup (Some (VStr "star_rating")) ∅)) None :: [])
  = Ok [rating_group 3 1; rating_group 5 2].
Proof.
  refine (proj1 (keyed_group_counts_each_value (rt := example_runtime)
                   (contents example_store) (VStr "star_rating") ∅ None [] _)).
  discriminate.
Defined.

(** The rating distribution as the summary asks for it, with the group key
    [$star_rating]. *)
Lemma group_by_an_absent_field_is_one_unknown_group_witness :
  MemoryAggregationCursor.run (rt := example_runtime) (contents example_store)
    (MkStage (Some (MkGroup (Some (VStr "$star_rating")) {["count"]})) None
       :: [MkStage None (Some ("_id", 1))])
  = Ok [<["_id" := VStr "Unknown"]> (<["count" := VInt 3]> (∅ : doc))].
Proof.
  apply (group_by_an_absent_field_is_one_unknown_group (rt := example_runtime)
           (contents example_store) "$star_rating").
  - discriminate.
  - intros d Hd. vm_compute in Hd.
    repeat (apply elem_of_cons in Hd as [->|Hd]); [..|by apply elem_of_nil in Hd];
      reflexivity.
Defined.

(** The summary's group stage on the three books: the result has the price
    range and no [total_books]. *)
Lemma overall_reports_four_statistics_only_witness :
  is_Some ((<["min_price" := VInt 10]> (<["max_price" := VInt 50]> (∅ : doc)))
             !! "total_books")
  ↔ "total_books" ∈ ({["total_books"; "min_price"; "max_price"]} : gset string)
    ∧ "total_books" ∈ ["avg_price"; "min_price"; "max_price"; "avg_rating"].
Proof.
  refine (overall_reports_four_statistics_only (rt := example_runtime)
            (contents example_store)
            (MkGroup (Some VNone) {["total_books"; "min_price"; "max_price"]})
            (<["min_price" := VInt 10]> (<["max_price" := VInt 50]> (∅ : doc)))
            _ "total_books").
  by vm_compute.
Defined.

Lemma minimum_and_maximum_are_extreme_witness :
  (∃ m, MemoryAggregationCursor.minimum [VInt 10; VInt 50; VInt 30] = Ok m
        ∧ m ∈ [VInt 10; VInt 50; VInt 30]
        ∧ ∀ x, x ∈ [VInt 10; VInt 50; VInt 30] → py_lt x m = Ok false)
  ∧ (∃ m, MemoryAggregationCursor.maximum [VInt 10; VInt 50; VInt 30] = Ok m
          ∧ m ∈ [VInt 10; VInt 50; VInt 30]
          ∧ ∀ x, x ∈ [VInt 10; VInt 50; VInt 30] → py_lt m x = Ok false).
Proof.
  apply (minimum_and_maximum_are_extreme [VInt 10; VInt 50; VInt 30]).
  - discriminate.
  - intros x y Hx Hy.
    repeat (apply elem_of_cons in Hx as [->|Hx]); [..|by apply elem_of_nil in Hx];
      repeat (apply elem_of_cons in Hy as [->|Hy]);
      try (by apply elem_of_nil in Hy); vm_compute; eauto.
Defined.

(** ** Snapshots: save, load, load again *)

Lemma alloc_all_contents (ds : list doc) (h h' : gmap loc doc) (ls : list loc) :
  alloc_all ds h = (ls, h') →
  deref h' <$> ls = ds ∧ ∀ l, l ∈ dom h → deref h' l = deref h l.
Proof.
  revert h h' ls. induction ds as [|d ds IH]; intros h h' ls; simpl.
  - by intros [= <- <-].
  - destruct (alloc_all ds (<[fresh (dom h) := d]> h)) as [ls' h2] eqn:Hrest.
    intros [= <- <-]. apply IH in Hrest as [Hds Hold].
    pose proof (is_fresh (dom h)) as Hfresh.
    assert (∀ l, l ∈ dom h → deref h2 l = deref h l) as Hold'.
    { intros l Hl. rewrite Hold.
      - apply deref_insert_ne. by intros <-.
      - rewrite dom_insert_L. by apply elem_of_union_r. }
    split; [|done]. rewrite fmap_cons, Hds. f_equal.
    rewrite Hold; [apply deref_insert_eq|].
    rewrite dom_insert_L. apply elem_of_union_l. by apply elem_of_singleton.
Qed.

Lemma extend_contents (items : list doc) (st : state) :
  (∀ l, l ∈ _memory_storage st → l ∈ dom (heap st)) →
  contents (extend items st) = (contents st ++ items)%list.
Proof.
  intros Hlive. unfold extend, contents.
  destruct (alloc_all items (heap st)) as [ls h] eqn:Hall. simpl.
  apply alloc_all_contents in Hall as [Hds Hold].
  rewrite fmap_app, Hds. f_equal.
  apply Forall_fmap_ext_1, Forall_forall. intros l Hl. by apply Hold, Hlive.
Qed.




